(** * libseg: colour-density probability maps (src/main.cc)

    A shallow embedding of [ImageProbability], of the export routines
    [SaveVector] and [SaveForegroundBackgroundDensities], of the display
    routines [WaitForEsc], [ShowImage] and [ImageSC], and of [main] from the
    loaded images on, together with a model of the density estimator
    [ColorChannelKDE] (declared in kde.h, which is not part of the sources at
    hand). *)

From Stdlib Require Import ZArith Lia.
From Stdlib Require Import Strings.Byte.
From Stdlib Require Import SpecFloat.
From Stdlib Require Import QArith Qcanon.
From Stdlib Require Import Strings.String Strings.Ascii.
From Stdlib Require DecimalString.
From stdpp Require Import base option list numbers.

Local Open Scope Z_scope.

(** ** Errors and results *)

(** [OutOfBounds] and [SignedOverflow] stand for undefined behaviour of the
    C++ program (an access outside an array, an overflowing [int] product):
    the model stops there.  [DimensionMismatch] is the error of the spec's
    estimator contract, [DivisionByZero] a quotient with a zero divisor (the
    NaN or Inf the spec forbids), [CheckFailed] the abort of a glog [CHECK]. *)
Inductive error : Type :=
  | OutOfBounds
  | SignedOverflow
  | DimensionMismatch
  | DivisionByZero
  | CheckFailed.

Inductive result (A : Type) : Type :=
  | Ok (a : A)
  | Err (e : error).
Arguments Ok {A} a.
Arguments Err {A} e.

#[export] Instance error_eq_dec : EqDecision error.
Proof. solve_decision. Defined.

#[export] Instance result_eq_dec {A} `{EqDecision A} : EqDecision (result A).
Proof. solve_decision. Defined.

Definition is_Ok {A} (r : result A) : Prop :=
  match r with Ok _ => True | Err _ => False end.

Definition of_option {A} (e : error) (o : option A) : result A :=
  match o with Some a => Ok a | None => Err e end.

(** ** Machine integers *)

Definition INT_MIN : Z := - 2 ^ 31.
Definition INT_MAX : Z := 2 ^ 31 - 1.

Definition in_int (z : Z) : bool := (INT_MIN <=? z) && (z <=? INT_MAX).

(** [W*H] on [int]: undefined on overflow. *)
Definition int_mul (a b : Z) : result Z :=
  if in_int (a * b) then Ok (a * b) else Err SignedOverflow.

(** [uint8_t] values are [byte]s; [u8] is the cast of an integer literal. *)
Definition u8 (z : Z) : byte :=
  default x00 (Byte.of_nat (Z.to_nat (z mod 256))).

Definition u8_index (b : byte) : nat := Byte.to_nat b.

(** ** Arithmetic of the probability values

    [ImageProbability] multiplies three [float]s into a [float] and stores it
    into a [double].  The embedding is generic in the two number types and in
    these two operations. *)
Class FloatOps : Type := {
  float : Type;
  double : Type;
  fmul : float -> float -> float;
  float_to_double : float -> double
}.

(** What the sign of the output needs of the arithmetic: a set [fprob] of
    [float]s that holds the probabilities and is closed under [fmul], and
    whose members convert to [double]s that are [dnonneg]. *)
Class ProbOrder (ops : FloatOps) : Type := {
  fprob : float -> Prop;
  dnonneg : double -> Prop;
  fmul_prob : forall x y, fprob x -> fprob y -> fprob (fmul x y);
  to_double_nonneg : forall x, fprob x -> dnonneg (float_to_double x)
}.

(** ** Memory, pointers and the event trace *)

(** A pointer names an array; [uint8_t] arrays and [double] arrays live in
    separate tables, indexed by the pointer. *)
Abbreviation ptr := nat.

Inductive event : Type :=
  | KdeCall (channel mask : ptr) (W H : Z) (median_filter : bool)
  | Store (p : ptr) (i : Z).

Section Machine.
Context {ops : FloatOps}.

Record memory : Type := Mem {
  mem_u8 : list (list byte);
  mem_f64 : list (list double)
}.

Record state : Type := St {
  st_mem : memory;
  st_trace : list event
}.

(** State and error monad: an error leaves the state as it was reached. *)
Definition M (A : Type) : Type := state -> result A * state.

Definition ret {A} (a : A) : M A := fun s => (Ok a, s).

Definition bind {A B} (m : M A) (k : A -> M B) : M B :=
  fun s => match m s with
           | (Ok a, s') => k a s'
           | (Err e, s') => (Err e, s')
           end.

Definition lift {A} (r : result A) : M A := fun s => (r, s).

Definition emit (e : event) : M unit :=
  fun s => (Ok tt, St (st_mem s) (st_trace s ++ [e])).

Definition set_mem (m : memory) : M unit :=
  fun s => (Ok tt, St m (st_trace s)).

(** [p[i]] on a [const uint8_t*]. *)
Definition read_u8 (mem : list (list byte)) (p : ptr) (i : Z) : result byte :=
  if i <? 0 then Err OutOfBounds
  else of_option OutOfBounds (blk ← mem !! p; blk !! Z.to_nat i).

Definition load8 (p : ptr) (i : Z) : M byte :=
  fun s => (read_u8 (mem_u8 (st_mem s)) p i, s).

(** [p[i] = v] on a [double*]. *)
Definition write_f64 (mem : list (list double)) (p : ptr) (i : Z) (v : double)
  : result (list (list double)) :=
  if i <? 0 then Err OutOfBounds
  else match mem !! p with
       | Some blk =>
           if decide (Z.to_nat i < length blk)%nat
           then Ok (<[p := <[Z.to_nat i := v]> blk]> mem)
           else Err OutOfBounds
       | None => Err OutOfBounds
       end.

Definition store64 (p : ptr) (i : Z) (v : double) : M unit :=
  fun s =>
    match write_f64 (mem_f64 (st_mem s)) p i v with
    | Ok m' => (Ok tt, St (Mem (mem_u8 (st_mem s)) m') (st_trace s ++ [Store p i]))
    | Err e => (Err e, s)
    end.

(** [v[i]] on a [std::vector] or on an array of pointers. *)
Definition index {A} (v : list A) (i : nat) : M A :=
  lift (of_option OutOfBounds (v !! i)).

End Machine.

Notation "x <- m ;; k" := (bind m (fun x => k))
  (at level 100, m at next level, right associativity).
Notation "m ;;; k" := (bind m (fun _ => k))
  (at level 100, right associativity).

Section Program.
Context {ops : FloatOps}.

(** [for (int i = start; i < start + count; ++i) body(i)] *)
Fixpoint for_range (start : Z) (count : nat) (body : Z -> M unit) : M unit :=
  match count with
  | O => ret tt
  | S k => body start ;;; for_range (start + 1) k body
  end.

(** [for (i : idx) out[i] = f(i)], the results collected in order. *)
Fixpoint for_each {A B} (f : A -> M B) (idx : list A) : M (list B) :=
  match idx with
  | [] => ret []
  | i :: rest => b <- f i ;; bs <- for_each f rest ;; ret (b :: bs)
  end.

(** ** The density estimator, as [ImageProbability] sees it

    [ColorChannelKDE(channel, mask, W, H, median_filter, &out)] is declared in
    kde.h.  It receives read-only pointers, so it is a function of the
    [uint8_t] memory and of its arguments, and it yields the vector it leaves
    in [out] (or fails). *)
Variable ColorChannelKDE :
  list (list byte) -> ptr -> ptr -> Z -> Z -> bool -> result (list float).

Definition call_kde (channel mask : ptr) (W H : Z) (median_filter : bool)
  : M (list float) :=
  emit (KdeCall channel mask W H median_filter) ;;;
  fun s => (ColorChannelKDE (mem_u8 (st_mem s)) channel mask W H median_filter, s).

(** ** [ImageProbability] (main.cc, lines 97-115) *)

(** [probs[c][channels[c][i]]] *)
Definition channel_prob (probs : list (list float)) (channels : list ptr)
    (c : nat) (i : Z) : M float :=
  d <- index probs c ;;
  ch <- index channels c ;;
  v <- load8 ch i ;;
  index d (u8_index v).

(** The body of the pixel loop. *)
Definition pixel_body (probs : list (list float)) (channels : list ptr)
    (outimg : ptr) (i : Z) : M unit :=
  p0 <- channel_prob probs channels 0 i ;;
  p1 <- channel_prob probs channels 1 i ;;
  p2 <- channel_prob probs channels 2 i ;;
  let prob := fmul (fmul p0 p1) p2 in
  store64 outimg i (float_to_double prob).

Definition ImageProbability (channels : list ptr) (mask : ptr) (W H : Z)
    (outimg : ptr) : M unit :=
  probs <- for_each (fun i => ch <- index channels i ;;
                              call_kde ch mask W H true) [0; 1; 2]%nat ;;
  n <- lift (int_mul W H) ;;
  for_range 0 (Z.to_nat n) (pixel_body probs channels outimg).

(** What the loop body reads and stores for pixel [i], as a function of the
    [uint8_t] memory: the three looked-up values and their product. *)
Definition prob_at (mem : list (list byte)) (probs : list (list float))
    (channels : list ptr) (c : nat) (i : Z) : option float :=
  d ← probs !! c; ch ← channels !! c; blk ← mem !! ch;
  v ← blk !! Z.to_nat i; d !! u8_index v.

Definition pixel_value (mem : list (list byte)) (probs : list (list float))
    (channels : list ptr) (i : Z) : option double :=
  p0 ← prob_at mem probs channels 0 i;
  p1 ← prob_at mem probs channels 1 i;
  p2 ← prob_at mem probs channels 2 i;
  Some (float_to_double (fmul (fmul p0 p1) p2)).

(** ** [SaveForegroundBackgroundDensities] (main.cc, lines 69-94)

    Per channel, the foreground density and then the background density, the
    caller's flag handed on to the estimator; the file written is the list of
    its rows, a foreground row and a background row per channel. *)
Definition SaveForegroundBackgroundDensities (channels : list ptr)
    (fg bg : ptr) (W H : Z) (median_filter : bool) : M (list (list float)) :=
  probs <- for_each (fun i => ch <- index channels i ;;
                              f <- call_kde ch fg W H median_filter ;;
                              b <- call_kde ch bg W H median_filter ;;
                              ret (f, b)) [0; 1; 2]%nat ;;
  ret (mjoin ((fun fb : list float * list float => [fb.1; fb.2]) <$> probs)).

(** ** [main] from the loaded images on (main.cc, lines 142-182)

    The OpenCV calls are outside the model.  Its inputs are what they leave
    behind: the size of the image, the three Lab planes that [cv::split]
    writes into [lab_l], [lab_a] and [lab_b], the two thresholded scribble
    images, and the initial content of [new double[W*H]]. *)
Record image : Type := Image {
  cols : Z;
  rows : Z;
  data : list byte
}.

Definition CHECK_EQ (a b : Z) : result unit :=
  if decide (a = b) then Ok tt else Err CheckFailed.

Definition main_from_loaded (img_cols img_rows : Z)
    (lab_l lab_a lab_b : list byte) (scribble_fg scribble_bg : image)
    (fg_prob : list double) : M unit :=
  let W := img_cols in
  let H := img_rows in
  lift (CHECK_EQ (cols scribble_fg) W) ;;;
  lift (CHECK_EQ (rows scribble_fg) H) ;;;
  lift (CHECK_EQ (cols scribble_bg) W) ;;;
  lift (CHECK_EQ (rows scribble_bg) H) ;;;
  set_mem (Mem [lab_l; lab_a; lab_b; data scribble_fg; data scribble_bg]
               [fg_prob]) ;;;
  let channels := [0; 1; 2]%nat in
  let fg := 3%nat in
  ImageProbability channels fg W H 0%nat.

(** Two states that agree on the [double] arrays, on the trace, and on the
    [uint8_t] arrays at the pointers [ps]. *)
Definition agree_on (ps : list ptr) (s t : state) : Prop :=
  mem_f64 (st_mem s) = mem_f64 (st_mem t) /\
  st_trace s = st_trace t /\
  forall p, p ∈ ps -> mem_u8 (st_mem s) !! p = mem_u8 (st_mem t) !! p.

End Program.

(** ** Text output: [SaveVector] (main.cc, lines 58-64) and the file of
    [SaveForegroundBackgroundDensities] (lines 83-93)

    A file system binds a name to the text last written under it.  An
    [fstream] that could not be opened drops what is written to it, and
    neither function looks at the state of its stream. *)

Definition TAB : ascii := "009"%char.
Definition NEWLINE : ascii := "010"%char.

Definition files : Type := string -> option string.

Definition write_file (name text : string) (fs : files) : files :=
  fun n => if String.eqb n name then Some text else fs n.

Section Saving.
Context {ops : FloatOps}.

(** The characters [f << x] appends for a [float] [x]. *)
Variable show : float -> string.

(** Whether [fstream f(filename, fstream::out)] opens (and truncates) the
    file. *)
Variable openable : string -> bool.

Variable ColorChannelKDE :
  list (list byte) -> ptr -> ptr -> Z -> Z -> bool -> result (list float).

(** [for (size_t i = 0; i < v.size(); ++i) f << v[i] << "\t";] on the text
    [f] of the stream. *)
Definition put_vector (f : string) (v : list float) : string :=
  foldl (fun f x => (f ++ show x ++ String TAB "")%string) f v.

Definition SaveVector (filename : string) (v : list float) (fs : files) : files :=
  let text := put_vector "" v in
  if openable filename then write_file filename text fs else fs.

(** The two inner loops of [SaveForegroundBackgroundDensities]: every row is
    written like a vector, and ended by [endl]. *)
Definition put_rows (f : string) (rows : list (list float)) : string :=
  foldl (fun f v => (put_vector f v ++ String NEWLINE "")%string) f rows.

(** The same texts from the front: a vector is its printed entries, each
    followed by a tab; a list of rows is its vectors, each followed by a
    newline. *)
Definition vector_text (v : list float) : string :=
  foldr (fun x acc => (show x ++ String TAB acc)%string) ""%string v.

Definition rows_text (rows : list (list float)) : string :=
  foldr (fun v acc => (vector_text v ++ String NEWLINE acc)%string) ""%string rows.

(** The whole function: the six estimator calls first, and only then the
    stream is opened on [filename] and the rows are written. *)
Definition SaveForegroundBackgroundDensities_file (channels : list ptr)
    (fg bg : ptr) (W H : Z) (median_filter : bool) (filename : string)
    (s : state) (fs : files) : result unit * state * files :=
  match SaveForegroundBackgroundDensities ColorChannelKDE channels fg bg W H
          median_filter s with
  | (Ok rows, s') =>
      let text := put_rows "" rows in
      (Ok tt, s', if openable filename then write_file filename text fs else fs)
  | (Err e, s') => (Err e, s', fs)
  end.

End Saving.

(** Reading such a text back: the fields of [s] that end with [sep], in
    order, and what follows the last [sep]. *)
Fixpoint fields (sep : ascii) (s : string) : list string * string :=
  match s with
  | EmptyString => ([], EmptyString)
  | String c s' =>
      let (fs, rest) := fields sep s' in
      if Ascii.eqb c sep then (EmptyString :: fs, rest)
      else match fs with
           | [] => ([], String c rest)
           | f :: fs' => (String c f :: fs', rest)
           end
  end.

(** The lines of a text, each split at its tabs. *)
Definition table (s : string) : list (list string) :=
  (fun line => (fields TAB line).1) <$> (fields NEWLINE s).1.

Fixpoint has_char (c : ascii) (s : string) : bool :=
  match s with
  | EmptyString => false
  | String c' s' => Ascii.eqb c' c || has_char c s'
  end.

(** ** The display: [WaitForEsc], [ShowImage] and [ImageSC] (main.cc, lines
    22-56)

    The OpenCV and glog calls are recorded as events; the keys that
    [cv::waitKey(0)] will return are a list, and waiting at its end never
    returns. *)

Inductive outcome (A : Type) : Type :=
  | Returned (a : A)
  | Blocked
  | Failed (e : error).
Arguments Returned {A} a.
Arguments Blocked {A}.
Arguments Failed {A} e.

Section Display.
(** [F] is [float]; [D] is an image as [cv::imshow] receives it. *)
Variables F D : Type.

Inductive ui_event : Type :=
  | LogInfo (Amin Amax : F)
  | NamedWindow (window_name : string) (flags : Z)
  | Imshow (window_name : string) (img : D).

Record gui : Type := Gui {
  gui_events : list ui_event;
  gui_keys : list Z
}.

(** [while (1) { key = cv::waitKey(0); if (key == 27) break; }] *)
Fixpoint WaitForEsc (keys : list Z) : outcome unit * list Z :=
  match keys with
  | [] => (Blocked, [])
  | key :: rest =>
      if decide (key = 27) then (Returned tt, rest) else WaitForEsc rest
  end.

Variables CV_WINDOW_NORMAL CV_WINDOW_KEEPRATIO CV_GUI_EXPANDED : Z.

Definition ShowImage (img : D) (window_name : string) (wait_for_esc : bool)
    (g : gui) : outcome unit * gui :=
  let flags := Z.lor (Z.lor CV_WINDOW_NORMAL CV_WINDOW_KEEPRATIO) CV_GUI_EXPANDED in
  let g1 := Gui (gui_events g ++ [NamedWindow window_name flags;
                                  Imshow window_name img]) (gui_keys g) in
  if wait_for_esc
  then let (r, keys) := WaitForEsc (gui_keys g1) in (r, Gui (gui_events g1) keys)
  else (Returned tt, g1).

(** The pixel type [T] of [ImageSC<T>], with its [operator<] and its
    conversion to [float]. *)
Variable T : Type.
Variable less : T -> T -> bool.
Variable to_float : T -> F.

(** Lines 50-54: [(img - Amin) / (Amax - Amin)], converted to 8 bits with
    scale 255 and coloured with [COLORMAP_JET]. *)
Variable jet_scaled : list T -> F -> F -> D.

(** [std::min_element] and [std::max_element]: the first smallest and the
    first largest element; [None] is the end iterator of an empty range. *)
Definition min_element (l : list T) : option T :=
  match l with
  | [] => None
  | x :: rest => Some (foldl (fun m y => if less y m then y else m) x rest)
  end.

Definition max_element (l : list T) : option T :=
  match l with
  | [] => None
  | x :: rest => Some (foldl (fun m y => if less m y then y else m) x rest)
  end.

(** Dereferencing the end iterator is undefined. *)
Definition ImageSC (img : list T) (window_name : string) (wait_for_esc : bool)
    (g : gui) : outcome unit * gui :=
  match min_element img, max_element img with
  | Some lo, Some hi =>
      let Amin := to_float lo in
      let Amax := to_float hi in
      let g1 := Gui (gui_events g ++ [LogInfo Amin Amax]) (gui_keys g) in
      ShowImage (jet_scaled img Amin Amax) window_name wait_for_esc g1
  | _, _ => (Failed OutOfBounds, g)
  end.

End Display.

Arguments LogInfo {F D} Amin Amax.
Arguments NamedWindow {F D} window_name flags.
Arguments Imshow {F D} window_name img.
Arguments Gui {F D} gui_events gui_keys.
Arguments gui_events {F D} g.
Arguments gui_keys {F D} g.

(** ** [main] from the loaded images to its return (main.cc, lines 142-192)

    [main_from_loaded], then [ImageSC<double>] on the [H] x [W] matrix header
    over the output buffer, then [return 0].  A failed [CHECK] and undefined
    behaviour end the program without a return value. *)
Section Main.
Context {ops : FloatOps}.

Variable ColorChannelKDE :
  list (list byte) -> ptr -> ptr -> Z -> Z -> bool -> result (list float).
Variable D : Type.
Variables CV_WINDOW_NORMAL CV_WINDOW_KEEPRATIO CV_GUI_EXPANDED : Z.
Variable dless : double -> double -> bool.
Variable double_to_float : double -> float.
Variable jet_scaled : list double -> float -> float -> D.

(** [cv::Mat fg_prob_mat(H, W, CV_64F, fg_prob.get())]: the first [H*W]
    doubles of the buffer.  A loaded image has positive [W] and [H]; a header
    of another size, or over a shorter buffer, is not modelled. *)
Definition mat_view (W H : Z) (blk : list double) : result (list double) :=
  if (0 <? W) && (0 <? H) && (W * H <=? Z.of_nat (length blk))
  then Ok (take (Z.to_nat (W * H)) blk)
  else Err OutOfBounds.

Definition main_shown (img_cols img_rows : Z)
    (lab_l lab_a lab_b : list byte) (scribble_fg scribble_bg : image)
    (fg_prob : list double) (s : state) (g : gui float D)
  : outcome Z * state * gui float D :=
  match main_from_loaded ColorChannelKDE img_cols img_rows lab_l lab_a lab_b
          scribble_fg scribble_bg fg_prob s with
  | (Err e, s') => (Failed e, s', g)
  | (Ok _, s') =>
      match of_option OutOfBounds (mem_f64 (st_mem s') !! 0%nat) with
      | Err e => (Failed e, s', g)
      | Ok blk =>
          match mat_view img_cols img_rows blk with
          | Err e => (Failed e, s', g)
          | Ok fg_prob_mat =>
              match ImageSC float D CV_WINDOW_NORMAL CV_WINDOW_KEEPRATIO
                      CV_GUI_EXPANDED double dless double_to_float jet_scaled
                      fg_prob_mat "fg_prob" true g with
              | (Returned _, g') => (Returned 0, s', g')
              | (Blocked, g') => (Blocked, s', g')
              | (Failed e, g') => (Failed e, s', g')
              end
          end
      end
  end.

End Main.

(** ** The density estimator of the spec (section 4.1)

    [ColorChannelKDE] is declared in kde.h and defined outside src/, so the
    estimator below follows the words of the spec, over exact rationals (the
    spec's Density is a sequence of real numbers).  The spec leaves two
    choices open, and the model takes both as parameters: the smoothing pass
    [smooth] and the result [policy] for an empty sample. *)

Definition Qc_of_nat (n : nat) : Qc := Qc_of_Z (Z.of_nat n).

Definition Qc_sum (l : list Qc) : Qc := foldr Qcplus 0%Qc l.

Definition BINS : nat := 256.

(** A pixel is sampled iff its mask value is non-zero. *)
Definition sampled (m : byte) : bool := negb (Byte.eqb m x00).

Definition sample_count (mask : list byte) : nat :=
  length (filter (fun m => sampled m = true) mask).

(** Modelled from the spec: step 1 of the estimator (the body of
    [ColorChannelKDE] is missing), a scan of the pixels that increments bin
    [channel[i]] where [mask[i]] is non-zero. *)
Definition count_pixel (h : list nat) (cm : byte * byte) : list nat :=
  if sampled cm.2 then alter S (u8_index cm.1) h else h.

Definition histogram (channel mask : list byte) : list nat :=
  foldl count_pixel (replicate BINS 0%nat) (zip channel mask).

(** The number of sampled pixels of value [k] in a scan. *)
Definition bin_count (k : nat) (l : list (byte * byte)) : nat :=
  length (filter (fun cm => sampled cm.2 = true /\ u8_index cm.1 = k) l).

(** Modelled from the spec: step 3 of the estimator (the body of
    [ColorChannelKDE] is missing), every bin divided by the total sample
    count; a zero divisor is an error of the model. *)
Definition checked_div (x : Qc) (n : nat) : result Qc :=
  if decide (n = 0%nat) then Err DivisionByZero else Ok (x / Qc_of_nat n)%Qc.

Fixpoint collect {A B} (f : A -> result B) (l : list A) : result (list B) :=
  match l with
  | [] => Ok []
  | a :: rest =>
      match f a with
      | Ok b => match collect f rest with
                | Ok bs => Ok (b :: bs)
                | Err e => Err e
                end
      | Err e => Err e
      end
  end.

Definition normalize (h : list Qc) (n : nat) : result (list Qc) :=
  collect (fun x => checked_div x n) h.

(** Modelled from the spec: step 4 of the estimator (the body of
    [ColorChannelKDE] is missing), the result for a mask that selects no
    pixel: uniform or all-zero, the choice being a parameter. *)
Inductive empty_policy : Type :=
  | UniformOnEmpty
  | ZeroOnEmpty.

Definition empty_density (policy : empty_policy) : list Qc :=
  match policy with
  | UniformOnEmpty => replicate BINS (1 / Qc_of_nat BINS)%Qc
  | ZeroOnEmpty => replicate BINS 0%Qc
  end.

(** Modelled from the spec: the input contract of the estimator (the body
    of [ColorChannelKDE] is missing), a channel buffer and a mask of [W*H]
    entries each. *)
Definition same_dimensions (channel mask : list byte) (W H : Z) : bool :=
  bool_decide (Z.of_nat (length channel) = W * H) &&
  bool_decide (Z.of_nat (length mask) = W * H).

(** Modelled from the spec: the estimator [estimate(channel, mask, W, H,
    smoothing)] of section 4.1, standing for [ColorChannelKDE], whose body
    (kde.h, kde.cc) is missing: a dimension mismatch fails, an empty sample
    gives the policy's density, and otherwise the histogram is smoothed if
    asked and normalised. *)
Definition estimate (smooth : list Qc -> list Qc) (policy : empty_policy)
    (channel mask : list byte) (W H : Z) (smoothing : bool)
  : result (list Qc) :=
  if negb (same_dimensions channel mask W H) then Err DimensionMismatch
  else
    let n := sample_count mask in
    if decide (n = 0%nat) then Ok (empty_density policy)
    else
      let hist := Qc_of_nat <$> histogram channel mask in
      let hist' := if smoothing then smooth hist else hist in
      normalize hist' n.

(** An example of a smoothing pass that meets what the spec asks of one
    (deterministic, total mass preserved): the weighted average
    [(h[k-1] + 2 h[k] + h[k+1]) / 4] with the edge bins replicated. *)
Fixpoint blur (prev : Qc) (h : list Qc) : list Qc :=
  match h with
  | [] => []
  | x :: t =>
      match t with
      | [] => [((prev + 2 * x + x) / Qc_of_Z 4)%Qc]
      | y :: _ => ((prev + 2 * x + y) / Qc_of_Z 4)%Qc :: blur x t
      end
  end.

Definition box3 (h : list Qc) : list Qc :=
  match h with
  | [] => []
  | x :: _ => blur x h
  end.

(** The other reading the spec allows, a windowed median (a rank filter)
    over three bins with the edge bins replicated. *)
Definition median3 (a b c : Qc) : Qc :=
  let lo := if decide (a <= b)%Qc then a else b in
  let hi := if decide (a <= b)%Qc then b else a in
  if decide (c <= lo)%Qc then lo else if decide (c <= hi)%Qc then c else hi.

Fixpoint median_pass (prev : Qc) (h : list Qc) : list Qc :=
  match h with
  | [] => []
  | x :: t =>
      match t with
      | [] => [median3 prev x x]
      | y :: _ => median3 prev x y :: median_pass x t
      end
  end.

Definition median_filter3 (h : list Qc) : list Qc :=
  match h with
  | [] => []
  | x :: _ => median_pass x h
  end.

(** ** Exact arithmetic, and the estimator behind the pointers *)

#[export] Instance exact_ops : FloatOps := {|
  float := Qc;
  double := Qc;
  fmul := Qcmult;
  float_to_double := fun x => x
|}.

#[export] Instance exact_order : ProbOrder exact_ops.
Proof.
  refine {| fprob := fun x : @float exact_ops => (0 <= (x : Qc))%Qc;
            dnonneg := fun x : @double exact_ops => (0 <= (x : Qc))%Qc |}.
  - intros x y Hx Hy. cbn. now apply Qcmult_nonneg_nonneg.
  - intros x Hx. exact Hx.
Defined.

Definition deref (mem : list (list byte)) (p : ptr) : result (list byte) :=
  of_option OutOfBounds (mem !! p).

(** Modelled from the spec: the estimator of the spec behind the pointers
    that the call sites pass to [ColorChannelKDE] (whose body is missing). *)
Definition estimate_at (smooth : list Qc -> list Qc) (policy : empty_policy)
    (mem : list (list byte)) (channel mask : ptr) (W H : Z) (smoothing : bool)
  : result (list Qc) :=
  match deref mem channel, deref mem mask with
  | Ok c, Ok m => estimate smooth policy c m W H smoothing
  | Err e, _ => Err e
  | _, Err e => Err e
  end.

(** The contract [jointProbability] as the spec words it (section 4.2),
    with its smoothing flag, to compare [ImageProbability] with: one density
    per channel from the same mask, then for every pixel the product of the
    looked-up values. *)
Definition jointProbability (smooth : list Qc -> list Qc)
    (policy : empty_policy) (channels : list (list byte)) (classMask : list byte)
    (W H : Z) (smoothing : bool) : result (list Qc) :=
  match collect (fun c => estimate smooth policy c classMask W H smoothing)
                channels with
  | Ok densities =>
      collect (fun i =>
                 match collect (fun cd : list byte * list Qc =>
                                  of_option OutOfBounds
                                    (v ← cd.1 !! i; cd.2 !! u8_index v))
                               (zip channels densities) with
                 | Ok ps => Ok (foldl Qcmult 1%Qc ps)
                 | Err e => Err e
                 end)
              (seq 0 (Z.to_nat (W * H)))
  | Err e => Err e
  end.

(** ** IEEE arithmetic: binary32 products stored into binary64

    The C++ types: [float] is binary32 (24 bits of precision, exponents below
    128), [double] is binary64 (53, 1024); the product rounds to nearest even
    and the conversion is exact. *)
Definition binary32_mul : spec_float -> spec_float -> spec_float :=
  SFmul 24 128.

Definition binary32_to_binary64 (x : spec_float) : spec_float :=
  match x with
  | S754_finite s m e => binary_round 53 1024 s m e
  | _ => x
  end.

#[export] Instance ieee_ops : FloatOps := {|
  float := spec_float;
  double := spec_float;
  fmul := binary32_mul;
  float_to_double := binary32_to_binary64
|}.

(** A probability value: a zero, or a positive finite float [m * 2^e] that
    is at most 1. *)
Definition prob32 (x : spec_float) : Prop :=
  match x with
  | S754_zero _ => True
  | S754_finite false m e => e <= 0 /\ Zpos m <= 2 ^ (- e)
  | _ => False
  end.

Definition prob32b (x : spec_float) : bool :=
  match x with
  | S754_zero _ => true
  | S754_finite false m e => (e <=? 0) && (Zpos m <=? 2 ^ (- e))
  | _ => false
  end.

(** [0 <= x], as the IEEE comparison has it (false on NaN). *)
Definition nonneg64 (x : spec_float) : Prop :=
  SFleb (S754_zero false) x = true.

(** What [k] right shifts of the rounding routine keep of a mantissa [M]:
    a non-negative quotient, below [M / 2^k], strictly so unless no bit was
    shifted out. *)
Definition shr_inv (M k : Z) (r : shr_record) : Prop :=
  0 <= shr_m r /\ shr_m r * 2 ^ k <= M /\
  ((shr_r r = false /\ shr_s r = false) \/ shr_m r * 2 ^ k < M).

(** A rational rounded to binary32, by one division of its terms. *)
Definition of_Z32 (n : Z) : spec_float := binary_normalize 24 128 n 0 false.

Definition to_binary32 (q : Qc) : spec_float :=
  SFdiv 24 128 (of_Z32 (Qnum q)) (of_Z32 (Zpos (Qden q))).

(** Modelled from the spec: the [vector<float>] that [ColorChannelKDE]
    (kde.h, defined outside src/) leaves behind, as the spec estimator's
    exact density with every entry rounded to binary32. *)
Definition estimate32_at (smooth : list Qc -> list Qc) (policy : empty_policy)
    (mem : list (list byte)) (channel mask : ptr) (W H : Z) (smoothing : bool)
  : result (list spec_float) :=
  match estimate_at smooth policy mem channel mask W H smoothing with
  | Ok d => Ok (to_binary32 <$> d)
  | Err e => Err e
  end.

(** ** Example inputs *)

Definition density_of (r : result (list Qc)) : list Qc :=
  match r with Ok d => d | Err _ => [] end.

(** A 2x2 image: three channel buffers and a mask that samples the first two
    pixels, with the estimator of the spec (example smoothing pass, uniform
    density on an empty sample) and an output array of five entries. *)
Definition ex_u8 : list (list byte) :=
  [ [u8 0; u8 0; u8 255; u8 255];
    [u8 7; u8 7; u8 9; u8 7];
    [u8 30; u8 31; u8 30; u8 31];
    [u8 1; u8 1; u8 0; u8 0] ].

Definition ex_kde :
  list (list byte) -> ptr -> ptr -> Z -> Z -> bool -> result (list Qc) :=
  estimate_at box3 UniformOnEmpty.

Definition ex_out : list Qc := replicate 5 (Qc_of_Z 5).

Definition ex_state : state (ops := exact_ops) :=
  St (ops := exact_ops) (Mem (ops := exact_ops) ex_u8 [ex_out]) [].

Definition ex_density (c : ptr) : list Qc :=
  density_of (ex_kde ex_u8 c 3%nat 2 2 true).

(** The same image in IEEE arithmetic; the output array starts as NaNs. *)
Definition ex_kde32 :
  list (list byte) -> ptr -> ptr -> Z -> Z -> bool -> result (list spec_float) :=
  estimate32_at box3 UniformOnEmpty.

Definition ex_state32 : state (ops := ieee_ops) :=
  St (ops := ieee_ops) (Mem (ops := ieee_ops) ex_u8 [replicate 4 S754_nan]) [].

Definition ex_density32 (c : ptr) : list spec_float :=
  match ex_kde32 ex_u8 c 3%nat 2 2 true with Ok d => d | Err _ => [] end.

(** The 2x2 scenario of the spec: channel 0 and the mask of the first two
    pixels. *)
Definition sq_channel : list byte := [u8 0; u8 0; u8 255; u8 255].
Definition sq_mask : list byte := [u8 1; u8 1; u8 0; u8 0].
Definition sq_unmasked : list byte := [u8 0; u8 0; u8 0; u8 0].


(** The 1x1 image of the spec's scenario: channel values (10, 20, 30). *)
Definition px_u8 : list (list byte) := [[u8 10]; [u8 20]; [u8 30]; [u8 1]].

Definition px_state : state (ops := exact_ops) :=
  St (ops := exact_ops) (Mem (ops := exact_ops) px_u8 [[0%Qc]]) [].

(** A printer for the exact rationals: numerator, a slash, denominator. *)
Definition show_Qc (q : Qc) : string :=
  (DecimalString.NilZero.string_of_int (Z.to_int (Qnum q)) ++ "/" ++
   DecimalString.NilZero.string_of_uint (Pos.to_uint (Qden q)))%string.

(** A 2x2 image for [main]: the planes of [ex_u8], a foreground and two
    background scribble images, the zeroed output buffer, and the keys
    Return, Esc, Space to come. *)
Definition ex_l : list byte := [u8 0; u8 0; u8 255; u8 255].
Definition ex_a : list byte := [u8 7; u8 7; u8 9; u8 7].
Definition ex_b : list byte := [u8 30; u8 31; u8 30; u8 31].
Definition ex_fg : image := Image 2 2 [u8 1; u8 1; u8 0; u8 0].
Definition ex_bg : image := Image 2 2 [u8 0; u8 0; u8 1; u8 1].
Definition ex_bg' : image := Image 2 2 [u8 0; u8 0; u8 0; u8 1].
Definition ex_fg_prob : list Qc := replicate 4 0%Qc.
Definition ex_gui : gui Qc (list Qc) := Gui [] [13; 27; 32].

(** A strict order and a colour scaling on the exact rationals. *)
Definition Qc_ltb (x y : Qc) : bool :=
  match (x ?= y)%Qc with Lt => true | _ => false end.

Definition ex_jet (img : list Qc) (lo hi : Qc) : list Qc :=
  (fun x => ((x - lo) / (hi - lo) * Qc_of_Z 255)%Qc) <$> img.

(** * Properties *)

(** ** Running the monad *)

Section MachineFacts.
Context {ops : FloatOps}.

Lemma bind_Ok {A B} (m : M A) (k : A -> M B) s a s' :
  m s = (Ok a, s') -> (x <- m ;; k x) s = k a s'.
Proof. intros E. unfold bind. now rewrite E. Qed.

Lemma bind_Err {A B} (m : M A) (k : A -> M B) s e s' :
  m s = (Err e, s') -> (x <- m ;; k x) s = (Err e, s').
Proof. intros E. unfold bind. now rewrite E. Qed.

Lemma index_Ok {A} (v : list A) i a s :
  v !! i = Some a -> index v i s = (Ok a, s).
Proof. intros E. unfold index, lift. now rewrite E. Qed.

Lemma read_u8_Ok mem p i blk v :
  0 <= i -> mem !! p = Some blk -> blk !! Z.to_nat i = Some v ->
  read_u8 mem p i = Ok v.
Proof.
  intros Hi Hp Hv. unfold read_u8.
  destruct (Z.ltb_spec i 0) as [?|_]; [lia|].
  rewrite Hp. simpl. now rewrite Hv.
Qed.

Lemma write_f64_Ok mem p i v blk :
  0 <= i -> mem !! p = Some blk -> (Z.to_nat i < length blk)%nat ->
  write_f64 mem p i v = Ok (<[p := <[Z.to_nat i := v]> blk]> mem).
Proof.
  intros Hi Hp Hlt. unfold write_f64.
  destruct (Z.ltb_spec i 0) as [?|_]; [lia|].
  rewrite Hp. now rewrite decide_True.
Qed.

Lemma store64_Ok s p i v blk :
  0 <= i -> mem_f64 (st_mem s) !! p = Some blk -> (Z.to_nat i < length blk)%nat ->
  store64 p i v s =
    (Ok tt, St (Mem (mem_u8 (st_mem s))
                    (<[p := <[Z.to_nat i := v]> blk]> (mem_f64 (st_mem s))))
               (st_trace s ++ [Store p i])).
Proof.
  intros Hi Hp Hlt. unfold store64.
  now rewrite (write_f64_Ok _ _ _ _ blk).
Qed.

End MachineFacts.

(** ** The pixel loop *)

Section ProgramFacts.
Context {ops : FloatOps}.
Variable KDE :
  list (list byte) -> ptr -> ptr -> Z -> Z -> bool -> result (list float).

Lemma channel_prob_run probs channels c i s p :
  0 <= i ->
  prob_at (mem_u8 (st_mem s)) probs channels c i = Some p ->
  channel_prob probs channels c i s = (Ok p, s).
Proof.
  unfold prob_at, channel_prob. intros Hi Hp.
  destruct (probs !! c) as [d|] eqn:Ed; [|discriminate].
  destruct (channels !! c) as [ch|] eqn:Ech; [|discriminate].
  simpl in Hp.
  destruct (mem_u8 (st_mem s) !! ch) as [blk|] eqn:Eblk; [|discriminate].
  simpl in Hp.
  destruct (blk !! Z.to_nat i) as [v|] eqn:Ev; [|discriminate].
  simpl in Hp.
  rewrite (bind_Ok _ _ _ _ _ (index_Ok _ _ _ _ Ed)).
  rewrite (bind_Ok _ _ _ _ _ (index_Ok _ _ _ _ Ech)).
  assert (Hload : load8 ch i s = (Ok v, s)).
  { unfold load8. now rewrite (read_u8_Ok _ _ _ blk v). }
  rewrite (bind_Ok _ _ _ _ _ Hload). now apply index_Ok.
Qed.

Lemma pixel_body_run probs channels outimg i s v :
  0 <= i ->
  pixel_value (mem_u8 (st_mem s)) probs channels i = Some v ->
  pixel_body probs channels outimg i s = store64 outimg i v s.
Proof.
  unfold pixel_value, pixel_body. intros Hi Hv.
  destruct (prob_at _ probs channels 0 i) as [p0|] eqn:E0; [|discriminate].
  destruct (prob_at _ probs channels 1 i) as [p1|] eqn:E1; [|discriminate].
  destruct (prob_at _ probs channels 2 i) as [p2|] eqn:E2; [|discriminate].
  simpl in Hv. injection Hv as <-.
  rewrite (bind_Ok _ _ _ _ _ (channel_prob_run _ _ _ _ _ _ Hi E0)).
  rewrite (bind_Ok _ _ _ _ _ (channel_prob_run _ _ _ _ _ _ Hi E1)).
  now rewrite (bind_Ok _ _ _ _ _ (channel_prob_run _ _ _ _ _ _ Hi E2)).
Qed.

(** A counted loop whose body stores [val j] at index [j] of one array
    writes the indices of its range, in order, and nothing else. *)
Lemma for_range_stores (u8m : list (list byte)) (outimg : ptr)
    (body : Z -> M unit) (val : Z -> option double) (hi : Z) :
  (forall j s, 0 <= j < hi -> mem_u8 (st_mem s) = u8m ->
     exists v, val j = Some v /\ body j s = store64 outimg j v s) ->
  forall count start s blk,
    0 <= start -> start + Z.of_nat count <= hi ->
    mem_u8 (st_mem s) = u8m ->
    mem_f64 (st_mem s) !! outimg = Some blk ->
    start + Z.of_nat count <= Z.of_nat (length blk) ->
    exists blk',
      for_range start count body s =
        (Ok tt, St (Mem u8m (<[outimg := blk']> (mem_f64 (st_mem s))))
                   (st_trace s ++ (Store outimg <$> seqZ start (Z.of_nat count))))
      /\ length blk' = length blk
      /\ forall k : nat,
           blk' !! k =
             if decide (start <= Z.of_nat k < start + Z.of_nat count)
             then val (Z.of_nat k) else blk !! k.
Proof.
  intros Hbody. induction count as [|count IH]; intros start s blk H0 Hhi Hu8 Hblk Hlen.
  - exists blk. split; [|split; [reflexivity|]].
    + simpl. unfold ret. destruct s as [[m8 m64] tr]. simpl in *. subst m8.
      rewrite list_insert_id by assumption. now rewrite app_nil_r.
    + intros k. rewrite decide_False by lia. reflexivity.
  - destruct (Hbody start s) as (v & Hv & Hrun); [lia|assumption|].
    set (blk1 := <[Z.to_nat start := v]> blk).
    assert (Hst : body start s =
              (Ok tt, St (Mem u8m (<[outimg := blk1]> (mem_f64 (st_mem s))))
                         (st_trace s ++ [Store outimg start]))).
    { rewrite Hrun, (store64_Ok _ _ _ _ blk); [now rewrite Hu8|lia|assumption|lia]. }
    assert (Hlk : <[outimg := blk1]> (mem_f64 (st_mem s)) !! outimg = Some blk1).
    { apply list_lookup_insert_eq. now apply lookup_lt_Some with blk. }
    destruct (IH (start + 1)
                (St (Mem u8m (<[outimg := blk1]> (mem_f64 (st_mem s))))
                    (st_trace s ++ [Store outimg start])) blk1)
      as (blk' & Erun & Elen & Elk); [lia|lia|reflexivity|exact Hlk| |].
    { unfold blk1. rewrite length_insert. lia. }
    exists blk'. split; [|split].
    + cbn [for_range]. rewrite (bind_Ok _ _ _ _ _ Hst), Erun. cbn [st_mem st_trace mem_f64].
      rewrite list_insert_insert_eq, <- app_assoc. do 3 f_equal.
      rewrite (seqZ_cons start) by lia.
      replace (Z.succ start) with (start + 1) by lia.
      replace (Z.pred (Z.of_nat (S count))) with (Z.of_nat count) by lia.
      reflexivity.
    + rewrite Elen. apply length_insert.
    + intros k. rewrite Elk. unfold blk1.
      destruct (decide (Z.of_nat k = start)) as [He|Hne].
      * rewrite decide_False by lia. rewrite decide_True by lia.
        replace (Z.to_nat start) with k by lia.
        rewrite list_lookup_insert_eq by lia. now rewrite He, Hv.
      * rewrite list_lookup_insert_ne by lia.
        destruct (decide (start + 1 <= Z.of_nat k < start + 1 + Z.of_nat count)).
        -- now rewrite decide_True by lia.
        -- now rewrite decide_False by lia.
Qed.

Lemma call_kde_run ch mask W H b s :
  call_kde KDE ch mask W H b s =
    (KDE (mem_u8 (st_mem s)) ch mask W H b,
     St (st_mem s) (st_trace s ++ [KdeCall ch mask W H b])).
Proof. reflexivity. Qed.

(** The first loop: one estimator call per channel, in order. *)
Lemma kde_loop_run channels mask W H s c0 c1 c2 d0 d1 d2 :
  channels !! 0%nat = Some c0 -> channels !! 1%nat = Some c1 ->
  channels !! 2%nat = Some c2 ->
  KDE (mem_u8 (st_mem s)) c0 mask W H true = Ok d0 ->
  KDE (mem_u8 (st_mem s)) c1 mask W H true = Ok d1 ->
  KDE (mem_u8 (st_mem s)) c2 mask W H true = Ok d2 ->
  for_each (fun i => ch <- index channels i ;; call_kde KDE ch mask W H true)
           [0; 1; 2]%nat s =
    (Ok [d0; d1; d2],
     St (st_mem s)
        (st_trace s ++ [KdeCall c0 mask W H true; KdeCall c1 mask W H true;
                        KdeCall c2 mask W H true])).
Proof.
  intros E0 E1 E2 K0 K1 K2. cbn [for_each].
  rewrite (bind_Ok _ _ s d0 (St (st_mem s) (st_trace s ++ [KdeCall c0 mask W H true]))).
  2:{ rewrite (bind_Ok _ _ _ _ _ (index_Ok _ _ _ _ E0)), call_kde_run. now rewrite K0. }
  erewrite bind_Ok.
  2:{ erewrite bind_Ok.
      2:{ rewrite (bind_Ok _ _ _ _ _ (index_Ok _ _ _ _ E1)), call_kde_run.
          cbn [st_mem st_trace]. now rewrite K1. }
      erewrite bind_Ok; [reflexivity|].
      erewrite bind_Ok.
      2:{ rewrite (bind_Ok _ _ _ _ _ (index_Ok _ _ _ _ E2)), call_kde_run.
          cbn [st_mem st_trace]. now rewrite K2. }
      reflexivity. }
  unfold ret. now rewrite <- !app_assoc.
Qed.

(** The whole call on inputs it can read: the final state in closed form. *)
Lemma ImageProbability_run channels mask W H outimg s c0 c1 c2 d0 d1 d2 out :
  channels !! 0%nat = Some c0 -> channels !! 1%nat = Some c1 ->
  channels !! 2%nat = Some c2 ->
  KDE (mem_u8 (st_mem s)) c0 mask W H true = Ok d0 ->
  KDE (mem_u8 (st_mem s)) c1 mask W H true = Ok d1 ->
  KDE (mem_u8 (st_mem s)) c2 mask W H true = Ok d2 ->
  in_int (W * H) = true ->
  mem_f64 (st_mem s) !! outimg = Some out ->
  W * H <= Z.of_nat (length out) ->
  (forall i, 0 <= i < W * H ->
     is_Some (pixel_value (mem_u8 (st_mem s)) [d0; d1; d2] channels i)) ->
  exists out',
    ImageProbability KDE channels mask W H outimg s =
      (Ok tt,
       St (Mem (mem_u8 (st_mem s)) (<[outimg := out']> (mem_f64 (st_mem s))))
          (st_trace s ++
           [KdeCall c0 mask W H true; KdeCall c1 mask W H true;
            KdeCall c2 mask W H true] ++
           (Store outimg <$> seqZ 0 (W * H))))
    /\ length out' = length out
    /\ forall k : nat,
         out' !! k =
           if decide (Z.of_nat k < W * H)
           then pixel_value (mem_u8 (st_mem s)) [d0; d1; d2] channels (Z.of_nat k)
           else out !! k.
Proof.
  intros E0 E1 E2 K0 K1 K2 Hint Hout Hlen Hpix.
  pose proof (kde_loop_run channels mask W H s _ _ _ _ _ _ E0 E1 E2 K0 K1 K2) as Hkde.
  set (s1 := St (st_mem s)
                (st_trace s ++ [KdeCall c0 mask W H true; KdeCall c1 mask W H true;
                                KdeCall c2 mask W H true])) in Hkde.
  destruct (for_range_stores (mem_u8 (st_mem s)) outimg
              (pixel_body [d0; d1; d2] channels outimg)
              (pixel_value (mem_u8 (st_mem s)) [d0; d1; d2] channels)
              (Z.of_nat (Z.to_nat (W * H))))
    with (count := Z.to_nat (W * H)) (start := 0) (s := s1) (blk := out)
    as (out' & Erun & Elen & Elk); [|lia|lia|reflexivity|exact Hout|lia|].
  { intros j s' Hj Hs'. destruct (Hpix j) as [v Hv]; [lia|]. exists v. split; [exact Hv|].
    apply pixel_body_run; [lia|]. now rewrite Hs'. }
  exists out'. split; [|split; [exact Elen|]].
  - unfold ImageProbability. rewrite (bind_Ok _ _ _ _ _ Hkde).
    unfold int_mul. rewrite Hint. unfold lift at 1. unfold bind at 1.
    rewrite Erun. cbn [s1 st_mem st_trace]. rewrite <- app_assoc.
    destruct (Z.le_gt_cases (W * H) 0) as [Hle|Hgt].
    + replace (Z.to_nat (W * H)) with 0%nat by lia. cbn [Z.of_nat].
      now rewrite !seqZ_nil by lia.
    + now rewrite Z2Nat.id by lia.
  - intros k. rewrite Elk.
    destruct (decide (Z.of_nat k < W * H)).
    + now rewrite decide_True by lia.
    + now rewrite decide_False by lia.
Qed.

(** Buffers of at least [W*H] entries and densities of 256 entries make
    every pixel readable. *)
Lemma prob_at_Some mem probs channels c i d ch blk :
  probs !! c = Some d -> channels !! c = Some ch -> mem !! ch = Some blk ->
  length d = 256%nat -> 0 <= i < Z.of_nat (length blk) ->
  exists v p, blk !! Z.to_nat i = Some v /\ d !! u8_index v = Some p /\
              prob_at mem probs channels c i = Some p.
Proof.
  intros Ed Ech Eblk Hd Hi.
  destruct (lookup_lt_is_Some_2 blk (Z.to_nat i)) as [v Hv]; [lia|].
  destruct (lookup_lt_is_Some_2 d (u8_index v)) as [p Hp].
  { rewrite Hd. pose proof (Byte.to_nat_bounded v). unfold u8_index. lia. }
  exists v, p. split; [exact Hv|split; [exact Hp|]].
  unfold prob_at. rewrite Ed. simpl. rewrite Ech. simpl. rewrite Eblk. simpl.
  now rewrite Hv.
Qed.

(** *** What any run can do, whether it succeeds or not *)

Lemma channel_prob_cases probs channels c i s :
  (exists e, channel_prob probs channels c i s = (Err e, s)) \/
  (exists p, 0 <= i /\
             prob_at (mem_u8 (st_mem s)) probs channels c i = Some p /\
             channel_prob probs channels c i s = (Ok p, s)).
Proof.
  unfold channel_prob, prob_at, bind, index, lift, load8, read_u8.
  destruct (probs !! c) as [d|]; simpl; [|left; now eexists].
  destruct (channels !! c) as [ch|]; simpl; [|left; now eexists].
  destruct (Z.ltb_spec i 0) as [?|Hi]; [left; now eexists|].
  destruct (mem_u8 (st_mem s) !! ch) as [blk|]; simpl; [|left; now eexists].
  destruct (blk !! Z.to_nat i) as [v|]; simpl; [|left; now eexists].
  destruct (d !! u8_index v) as [p|]; simpl; [|left; now eexists].
  right. exists p. auto.
Qed.

Lemma pixel_body_cases probs channels outimg i s :
  (exists e, pixel_body probs channels outimg i s = (Err e, s)) \/
  (exists v, 0 <= i /\
             pixel_value (mem_u8 (st_mem s)) probs channels i = Some v /\
             pixel_body probs channels outimg i s = store64 outimg i v s).
Proof.
  unfold pixel_body, pixel_value.
  destruct (channel_prob_cases probs channels 0 i s) as [[e E]|(p0 & Hi & P0 & E0)].
  { left. exists e. now rewrite (bind_Err _ _ _ _ _ E). }
  rewrite (bind_Ok _ _ _ _ _ E0), P0. simpl.
  destruct (channel_prob_cases probs channels 1 i s) as [[e E]|(p1 & _ & P1 & E1)].
  { left. exists e. now rewrite (bind_Err _ _ _ _ _ E). }
  rewrite (bind_Ok _ _ _ _ _ E1), P1. simpl.
  destruct (channel_prob_cases probs channels 2 i s) as [[e E]|(p2 & _ & P2 & E2)].
  { left. exists e. now rewrite (bind_Err _ _ _ _ _ E). }
  rewrite (bind_Ok _ _ _ _ _ E2), P2. simpl.
  right. eexists. eauto.
Qed.

Lemma store64_cases p i v s :
  (exists e, store64 p i v s = (Err e, s)) \/
  (exists blk, 0 <= i /\ mem_f64 (st_mem s) !! p = Some blk /\
               (Z.to_nat i < length blk)%nat /\
               store64 p i v s =
                 (Ok tt, St (Mem (mem_u8 (st_mem s))
                                 (<[p := <[Z.to_nat i := v]> blk]> (mem_f64 (st_mem s))))
                            (st_trace s ++ [Store p i]))).
Proof.
  unfold store64, write_f64.
  destruct (Z.ltb_spec i 0) as [?|Hi]; [left; now eexists|].
  destruct (mem_f64 (st_mem s) !! p) as [blk|]; [|left; now eexists].
  destruct (decide (Z.to_nat i < length blk)%nat); [|left; now eexists].
  right. exists blk. auto.
Qed.

(** The pixel loop, stopped or not: it has stored at the first [m] indices of
    its range, in order, and touched nothing else. *)
Lemma pixel_loop_frame probs channels outimg count :
  forall start s, 0 <= start ->
  exists m : nat,
    let r := (for_range start count (pixel_body probs channels outimg) s).1 in
    let s' := (for_range start count (pixel_body probs channels outimg) s).2 in
    (m <= count)%nat /\ (is_Ok r -> m = count) /\
    st_trace s' = st_trace s ++ (Store outimg <$> seqZ start (Z.of_nat m)) /\
    mem_u8 (st_mem s') = mem_u8 (st_mem s) /\
    length (mem_f64 (st_mem s')) = length (mem_f64 (st_mem s)) /\
    (forall p, p <> outimg -> mem_f64 (st_mem s') !! p = mem_f64 (st_mem s) !! p) /\
    (forall blk, mem_f64 (st_mem s) !! outimg = Some blk ->
       exists blk', mem_f64 (st_mem s') !! outimg = Some blk' /\
                    length blk' = length blk /\
                    forall k : nat,
                      blk' !! k =
                        if decide (start <= Z.of_nat k < start + Z.of_nat m)
                        then pixel_value (mem_u8 (st_mem s)) probs channels (Z.of_nat k)
                        else blk !! k) /\
    (mem_f64 (st_mem s) !! outimg = None -> m = 0%nat).
Proof.
  induction count as [|count IH]; intros start s H0.
  - exists 0%nat. cbn [for_range ret fst snd]. rewrite app_nil_r.
    repeat split; auto.
    intros blk Hblk. exists blk. repeat split; auto.
    intros k. now rewrite decide_False by lia.
  - cbn [for_range].
    destruct (pixel_body_cases probs channels outimg start s) as [[e E]|(v & _ & Hv & E)].
    { exists 0%nat. rewrite (bind_Err _ _ _ _ _ E). cbn [fst snd]. rewrite app_nil_r.
      repeat split; auto; try lia; try easy.
      intros blk Hblk. exists blk. repeat split; auto.
      intros k. now rewrite decide_False by lia. }
    destruct (store64_cases outimg start v s) as [[e E']|(blk & _ & Hblk & Hlt & E')].
    { exists 0%nat. rewrite E' in E. rewrite (bind_Err _ _ _ _ _ E). cbn [fst snd].
      rewrite app_nil_r. repeat split; auto; try lia; try easy.
      intros blk Hblk. exists blk. repeat split; auto.
      intros k. now rewrite decide_False by lia. }
    rewrite E' in E. rewrite (bind_Ok _ _ _ _ _ E).
    set (blk1 := <[Z.to_nat start := v]> blk) in *.
    set (s1 := St _ _) in *.
    destruct (IH (start + 1) s1) as (m & Hm & Hok & Htr & Hu8 & Hlen & Hoth & Hout & _); [lia|].
    cbn zeta in *.
    assert (Hlk : mem_f64 (st_mem s1) !! outimg = Some blk1).
    { cbn. apply list_lookup_insert_eq. now apply lookup_lt_Some with blk. }
    destruct (Hout blk1 Hlk) as (blk' & Hblk' & Hlen' & Hval).
    exists (S m). repeat split.
    + lia.
    + intros Hr. f_equal. auto.
    + rewrite Htr. cbn [s1 st_trace]. rewrite <- app_assoc. f_equal.
      rewrite (seqZ_cons start) by lia.
      replace (Z.succ start) with (start + 1) by lia.
      replace (Z.pred (Z.of_nat (S m))) with (Z.of_nat m) by lia.
      reflexivity.
    + rewrite Hu8. reflexivity.
    + rewrite Hlen. cbn. apply length_insert.
    + intros p Hp. rewrite Hoth by assumption. cbn.
      now apply list_lookup_insert_ne.
    + intros blk0 Hblk0. rewrite Hblk in Hblk0. injection Hblk0 as <-.
      exists blk'. split; [exact Hblk'|]. split.
      { rewrite Hlen'. apply length_insert. }
      intros k. rewrite Hval. cbn [s1 st_mem mem_u8]. unfold blk1.
      destruct (decide (Z.of_nat k = start)) as [He|Hne].
      * rewrite decide_False by lia. rewrite decide_True by lia.
        replace (Z.to_nat start) with k by lia.
        rewrite list_lookup_insert_eq by lia. now rewrite He, Hv.
      * rewrite list_lookup_insert_ne by lia.
        destruct (decide (start + 1 <= Z.of_nat k < start + 1 + Z.of_nat m)).
        -- now rewrite decide_True by lia.
        -- now rewrite decide_False by lia.
    + intros Hnone. rewrite Hblk in Hnone. discriminate.
Qed.

(** The estimator loop, stopped or not: it has called the estimator for the
    first channels of [idx], in order, each with the mask, [W], [H] and
    [true], and changed no memory. *)
Lemma kde_loop_frame channels mask W H idx :
  forall s, exists cs : list ptr,
    let run := for_each (fun i => ch <- index channels i ;;
                                  call_kde KDE ch mask W H true) idx s in
    st_mem run.2 = st_mem s /\
    st_trace run.2 = st_trace s ++ ((fun c => KdeCall c mask W H true) <$> cs) /\
    forall probs, run.1 = Ok probs ->
      Forall2 (fun i c => channels !! i = Some c) idx cs /\
      Forall2 (fun c d => KDE (mem_u8 (st_mem s)) c mask W H true = Ok d) cs probs.
Proof.
  induction idx as [|i idx IH]; intros s.
  - exists []. cbn. rewrite app_nil_r. split; [|split]; auto.
    intros ? [= <-]. split; constructor.
  - cbn [for_each]. destruct (channels !! i) as [c|] eqn:Ec.
    2:{ exists []. unfold bind at 1. unfold bind at 1. unfold index, lift. rewrite Ec.
        cbn. rewrite app_nil_r. split; [|split]; auto; discriminate. }
    assert (Hcall : (ch <- index channels i ;; call_kde KDE ch mask W H true) s =
                    (KDE (mem_u8 (st_mem s)) c mask W H true,
                     St (st_mem s) (st_trace s ++ [KdeCall c mask W H true]))).
    { now rewrite (bind_Ok _ _ _ _ _ (index_Ok _ _ _ _ Ec)), call_kde_run. }
    destruct (KDE (mem_u8 (st_mem s)) c mask W H true) as [d|e] eqn:Ek.
    2:{ exists [c]. rewrite (bind_Err _ _ _ _ _ Hcall). cbn.
        split; [|split]; auto; discriminate. }
    rewrite (bind_Ok _ _ _ _ _ Hcall).
    set (s1 := St _ _).
    destruct (IH s1) as (cs & Hmem & Htr & Hok). cbn zeta in *.
    exists (c :: cs).
    destruct (for_each _ idx s1) as [[probs|e] s2] eqn:Erun; cbn [fst snd] in *.
    + rewrite (bind_Ok _ _ _ _ _ Erun). unfold ret. cbn [fst snd].
      rewrite Hmem, Htr. cbn. rewrite <- app_assoc. split; [|split]; auto.
      intros ? [= <-]. destruct (Hok probs eq_refl). split; constructor; auto.
    + rewrite (bind_Err _ _ _ _ _ Erun). cbn [fst snd].
      rewrite Hmem, Htr. cbn. rewrite <- app_assoc. split; [|split]; auto; discriminate.
Qed.

(** Every run of [ImageProbability]: estimator calls for a prefix of the
    three channels, then stores at the first [m] pixels, and no other
    effect.  A successful run has made all three calls and all the stores. *)
Lemma ImageProbability_any_run channels mask W H outimg s :
  exists (cs : list ptr) (m : nat),
    let run := ImageProbability KDE channels mask W H outimg s in
    mem_u8 (st_mem run.2) = mem_u8 (st_mem s) /\
    length (mem_f64 (st_mem run.2)) = length (mem_f64 (st_mem s)) /\
    (forall p, p <> outimg ->
       mem_f64 (st_mem run.2) !! p = mem_f64 (st_mem s) !! p) /\
    st_trace run.2 =
      st_trace s ++ ((fun c => KdeCall c mask W H true) <$> cs) ++
      (Store outimg <$> seqZ 0 (Z.of_nat m)) /\
    Z.of_nat m <= Z.max 0 (W * H) /\
    (forall blk, mem_f64 (st_mem s) !! outimg = Some blk ->
       exists blk', mem_f64 (st_mem run.2) !! outimg = Some blk' /\
                    length blk' = length blk /\
                    forall k : nat, (m <= k)%nat -> blk' !! k = blk !! k) /\
    (is_Ok run.1 ->
       exists c0 c1 c2 d0 d1 d2,
         cs = [c0; c1; c2] /\
         channels !! 0%nat = Some c0 /\ channels !! 1%nat = Some c1 /\
         channels !! 2%nat = Some c2 /\
         KDE (mem_u8 (st_mem s)) c0 mask W H true = Ok d0 /\
         KDE (mem_u8 (st_mem s)) c1 mask W H true = Ok d1 /\
         KDE (mem_u8 (st_mem s)) c2 mask W H true = Ok d2 /\
         in_int (W * H) = true /\
         Z.of_nat m = Z.max 0 (W * H) /\
         forall blk' (k : nat),
           mem_f64 (st_mem run.2) !! outimg = Some blk' -> (k < m)%nat ->
           blk' !! k =
             pixel_value (mem_u8 (st_mem s)) [d0; d1; d2] channels (Z.of_nat k)).
Proof.
  destruct (kde_loop_frame channels mask W H [0; 1; 2]%nat s) as (cs & Hmem & Htr & Hok).
  cbn zeta in *. exists cs. unfold ImageProbability.
  destruct (for_each _ [0; 1; 2]%nat s) as [[probs|e] s1] eqn:Ekde; cbn [fst snd] in *.
  2:{ exists 0%nat. rewrite (bind_Err _ _ _ _ _ Ekde). cbn [fst snd].
      rewrite Hmem, Htr, app_nil_r. repeat split; auto; try lia; try easy.
      intros blk Hblk. exists blk. auto. }
  rewrite (bind_Ok _ _ _ _ _ Ekde).
  destruct (Hok probs eq_refl) as [Hcs Hds]. clear Hok.
  unfold int_mul. destruct (in_int (W * H)) eqn:Hint.
  2:{ exists 0%nat. rewrite (bind_Err _ _ s1 SignedOverflow s1) by reflexivity.
      cbn [fst snd].
      rewrite Hmem, Htr, app_nil_r. repeat split; auto; try lia; try easy.
      intros blk Hblk. exists blk. auto. }
  rewrite (bind_Ok _ _ s1 (W * H) s1) by reflexivity.
  destruct (pixel_loop_frame probs channels outimg (Z.to_nat (W * H)) 0 s1)
    as (m & Hm & Hall & Htr' & Hu8 & Hlen & Hoth & Hout & Hnone); [lia|].
  cbn zeta in *. exists m.
  rewrite Hu8, Hlen, Htr', Htr, Hmem, <- app_assoc.
  split; [reflexivity|]. split; [reflexivity|].
  split; [intros p Hp; rewrite Hoth by assumption; now rewrite Hmem|].
  split; [reflexivity|]. split; [lia|]. split.
  - intros blk Hblk. rewrite <- Hmem in Hblk.
    destruct (Hout blk Hblk) as (blk' & Hblk' & Hlen' & Hval).
    exists blk'. split; [exact Hblk'|]. split; [exact Hlen'|].
    intros k Hk. rewrite Hval. now rewrite decide_False by lia.
  - intros Hr. specialize (Hall Hr).
    inversion Hcs as [|? c0 ? cs0 E0 Hcs0]; subst.
    inversion Hcs0 as [|? c1 ? cs1 E1 Hcs1]; subst.
    inversion Hcs1 as [|? c2 ? cs2 E2 Hcs2]; subst.
    inversion Hcs2; subst.
    inversion Hds as [|? d0 ? ds0 K0 Hds0]; subst.
    inversion Hds0 as [|? d1 ? ds1 K1 Hds1]; subst.
    inversion Hds1 as [|? d2 ? ds2 K2 Hds2]; subst.
    inversion Hds2; subst.
    exists c0, c1, c2, d0, d1, d2.
    repeat (split; [assumption || reflexivity || lia|]).
    intros blk' k Hblk' Hk.
    destruct (mem_f64 (st_mem s1) !! outimg) as [blk|] eqn:Eblk.
    + destruct (Hout blk eq_refl) as (blk'' & Hblk'' & _ & Hval).
      rewrite Hblk' in Hblk''. injection Hblk'' as <-.
      rewrite Hval, decide_True by lia. now rewrite Hmem.
    + specialize (Hnone eq_refl). lia.
Qed.

(** ** The claims about [ImageProbability] *)

(** The successful run on readable inputs, pixel by pixel. *)
Lemma ImageProbability_pixels
    channels mask W H outimg s c0 c1 c2 b0 b1 b2 d0 d1 d2 out :
  channels !! 0%nat = Some c0 -> channels !! 1%nat = Some c1 ->
  channels !! 2%nat = Some c2 ->
  mem_u8 (st_mem s) !! c0 = Some b0 -> mem_u8 (st_mem s) !! c1 = Some b1 ->
  mem_u8 (st_mem s) !! c2 = Some b2 ->
  KDE (mem_u8 (st_mem s)) c0 mask W H true = Ok d0 ->
  KDE (mem_u8 (st_mem s)) c1 mask W H true = Ok d1 ->
  KDE (mem_u8 (st_mem s)) c2 mask W H true = Ok d2 ->
  length d0 = 256%nat -> length d1 = 256%nat -> length d2 = 256%nat ->
  in_int (W * H) = true ->
  W * H <= Z.of_nat (length b0) -> W * H <= Z.of_nat (length b1) ->
  W * H <= Z.of_nat (length b2) ->
  mem_f64 (st_mem s) !! outimg = Some out -> W * H <= Z.of_nat (length out) ->
  exists s' out',
    ImageProbability KDE channels mask W H outimg s = (Ok tt, s') /\
    mem_f64 (st_mem s') !! outimg = Some out' /\
    length out' = length out /\
    forall i : nat, Z.of_nat i < W * H ->
      exists v0 v1 v2 p0 p1 p2,
        b0 !! i = Some v0 /\ b1 !! i = Some v1 /\ b2 !! i = Some v2 /\
        d0 !! u8_index v0 = Some p0 /\ d1 !! u8_index v1 = Some p1 /\
        d2 !! u8_index v2 = Some p2 /\
        out' !! i = Some (float_to_double (fmul (fmul p0 p1) p2)).
Proof.
  intros E0 E1 E2 B0 B1 B2 K0 K1 K2 L0 L1 L2 Hint Hb0 Hb1 Hb2 Hout Hlen.
  assert (Hpix : forall i, 0 <= i < W * H ->
            exists v0 v1 v2 p0 p1 p2,
              b0 !! Z.to_nat i = Some v0 /\ b1 !! Z.to_nat i = Some v1 /\
              b2 !! Z.to_nat i = Some v2 /\
              d0 !! u8_index v0 = Some p0 /\ d1 !! u8_index v1 = Some p1 /\
              d2 !! u8_index v2 = Some p2 /\
              pixel_value (mem_u8 (st_mem s)) [d0; d1; d2] channels i =
                Some (float_to_double (fmul (fmul p0 p1) p2))).
  { intros i Hi.
    destruct (prob_at_Some (mem_u8 (st_mem s)) [d0; d1; d2] channels 0 i d0 c0 b0)
      as (v0 & p0 & V0 & P0 & A0); [reflexivity|assumption..|lia|].
    destruct (prob_at_Some (mem_u8 (st_mem s)) [d0; d1; d2] channels 1 i d1 c1 b1)
      as (v1 & p1 & V1 & P1 & A1); [reflexivity|assumption..|lia|].
    destruct (prob_at_Some (mem_u8 (st_mem s)) [d0; d1; d2] channels 2 i d2 c2 b2)
      as (v2 & p2 & V2 & P2 & A2); [reflexivity|assumption..|lia|].
    exists v0, v1, v2, p0, p1, p2. repeat (split; [assumption|]).
    unfold pixel_value. now rewrite A0, A1, A2. }
  destruct (ImageProbability_run channels mask W H outimg s c0 c1 c2 d0 d1 d2 out)
    as (out' & Erun & Elen & Elk); try assumption.
  { intros i Hi.
    destruct (Hpix i Hi) as (? & ? & ? & ? & ? & ? & _ & _ & _ & _ & _ & _ & Hv).
    rewrite Hv. now eexists. }
  eexists. exists out'. split; [exact Erun|]. split.
  { cbn. apply list_lookup_insert_eq. now apply lookup_lt_Some with out. }
  split; [exact Elen|].
  intros i Hi. destruct (Hpix (Z.of_nat i)) as (v0 & v1 & v2 & p0 & p1 & p2 & Hv); [lia|].
  rewrite Nat2Z.id in Hv.
  exists v0, v1, v2, p0, p1, p2.
  destruct Hv as (? & ? & ? & ? & ? & ? & Hv).
  repeat (split; [assumption|]).
  rewrite Elk, decide_True by lia. exact Hv.
Qed.

(** C1: for every [W], [H], three channel buffers of at least [W*H] entries
    and the 256-entry density the estimator gives for each, the call succeeds
    and entry [i] of the output, for every pixel [i] in [[0, W*H)], is the
    product of the three density values found at that pixel's raw intensities:
    [outimg[i] = d0[channels[0][i]] * d1[channels[1][i]] * d2[channels[2][i]]],
    multiplied as [float]s from the left and converted to [double]. *)
Theorem ImageProbability_joint_product
    channels mask W H outimg s c0 c1 c2 b0 b1 b2 d0 d1 d2 out :
  channels !! 0%nat = Some c0 -> channels !! 1%nat = Some c1 ->
  channels !! 2%nat = Some c2 ->
  mem_u8 (st_mem s) !! c0 = Some b0 -> mem_u8 (st_mem s) !! c1 = Some b1 ->
  mem_u8 (st_mem s) !! c2 = Some b2 ->
  KDE (mem_u8 (st_mem s)) c0 mask W H true = Ok d0 ->
  KDE (mem_u8 (st_mem s)) c1 mask W H true = Ok d1 ->
  KDE (mem_u8 (st_mem s)) c2 mask W H true = Ok d2 ->
  length d0 = 256%nat -> length d1 = 256%nat -> length d2 = 256%nat ->
  in_int (W * H) = true ->
  W * H <= Z.of_nat (length b0) -> W * H <= Z.of_nat (length b1) ->
  W * H <= Z.of_nat (length b2) ->
  mem_f64 (st_mem s) !! outimg = Some out -> W * H <= Z.of_nat (length out) ->
  exists s' out',
    ImageProbability KDE channels mask W H outimg s = (Ok tt, s') /\
    mem_f64 (st_mem s') !! outimg = Some out' /\
    forall i : nat, Z.of_nat i < W * H ->
      exists v0 v1 v2 p0 p1 p2,
        b0 !! i = Some v0 /\ b1 !! i = Some v1 /\ b2 !! i = Some v2 /\
        d0 !! u8_index v0 = Some p0 /\ d1 !! u8_index v1 = Some p1 /\
        d2 !! u8_index v2 = Some p2 /\
        out' !! i = Some (float_to_double (fmul (fmul p0 p1) p2)).
Proof.
  intros E0 E1 E2 B0 B1 B2 K0 K1 K2 L0 L1 L2 Hint Hb0 Hb1 Hb2 Hout Hlen.
  destruct (ImageProbability_pixels channels mask W H outimg s
              c0 c1 c2 b0 b1 b2 d0 d1 d2 out)
    as (s' & out' & Erun & Hout' & _ & Hpix); try assumption.
  exists s', out'. auto.
Qed.

(** C7: a successful call has obtained its three densities by calling the
    density estimator exactly once per channel, in channel order, each time on
    that channel's buffer and with the one mask argument (and the same [W],
    [H] and flag); these calls precede every store, and the values stored are
    computed from the three densities so obtained. *)
Theorem ImageProbability_kde_calls channels mask W H outimg s :
  is_Ok (ImageProbability KDE channels mask W H outimg s).1 ->
  exists c0 c1 c2 d0 d1 d2,
    channels !! 0%nat = Some c0 /\ channels !! 1%nat = Some c1 /\
    channels !! 2%nat = Some c2 /\
    KDE (mem_u8 (st_mem s)) c0 mask W H true = Ok d0 /\
    KDE (mem_u8 (st_mem s)) c1 mask W H true = Ok d1 /\
    KDE (mem_u8 (st_mem s)) c2 mask W H true = Ok d2 /\
    st_trace (ImageProbability KDE channels mask W H outimg s).2 =
      st_trace s ++
      [KdeCall c0 mask W H true; KdeCall c1 mask W H true;
       KdeCall c2 mask W H true] ++
      (Store outimg <$> seqZ 0 (W * H)) /\
    forall blk' (k : nat),
      mem_f64 (st_mem (ImageProbability KDE channels mask W H outimg s).2) !! outimg
        = Some blk' ->
      Z.of_nat k < W * H ->
      blk' !! k =
        pixel_value (mem_u8 (st_mem s)) [d0; d1; d2] channels (Z.of_nat k).
Proof.
  intros Hok.
  destruct (ImageProbability_any_run channels mask W H outimg s)
    as (cs & m & _ & _ & _ & Htr & _ & _ & Hsucc).
  cbn zeta in *.
  destruct (Hsucc Hok)
    as (c0 & c1 & c2 & d0 & d1 & d2 & -> & E0 & E1 & E2 & K0 & K1 & K2 & _ & Hm & Hval).
  exists c0, c1, c2, d0, d1, d2. repeat (split; [assumption|]). split.
  - rewrite Htr, Hm. cbn [fmap list_fmap]. do 3 f_equal.
    destruct (Z.le_gt_cases (W * H) 0).
    + now rewrite !seqZ_nil by lia.
    + now rewrite Z.max_r by lia.
  - intros blk' k Hblk' Hk. apply Hval; [assumption|lia].
Qed.

(** C10: whatever the outcome, the call leaves the [uint8_t] memory (the
    channel buffers and the mask among it) and every [double] array other
    than [outimg] as they were; in [outimg] it changes no entry from index [m]
    on, where its stores are exactly those at the indices [0, 1, ..., m-1],
    one each and in this order, with [m <= W*H]; a successful call has
    [m = W*H] (none when [W*H <= 0]). *)
Theorem ImageProbability_frame channels mask W H outimg s :
  let run := ImageProbability KDE channels mask W H outimg s in
  mem_u8 (st_mem run.2) = mem_u8 (st_mem s) /\
  length (mem_f64 (st_mem run.2)) = length (mem_f64 (st_mem s)) /\
  (forall p, p <> outimg ->
     mem_f64 (st_mem run.2) !! p = mem_f64 (st_mem s) !! p) /\
  exists (cs : list ptr) (m : nat),
    st_trace run.2 =
      st_trace s ++ ((fun c => KdeCall c mask W H true) <$> cs) ++
      (Store outimg <$> seqZ 0 (Z.of_nat m)) /\
    Z.of_nat m <= Z.max 0 (W * H) /\
    (is_Ok run.1 -> Z.of_nat m = Z.max 0 (W * H)) /\
    (forall blk, mem_f64 (st_mem s) !! outimg = Some blk ->
       exists blk', mem_f64 (st_mem run.2) !! outimg = Some blk' /\
                    length blk' = length blk /\
                    forall k : nat, (m <= k)%nat -> blk' !! k = blk !! k).
Proof.
  destruct (ImageProbability_any_run channels mask W H outimg s)
    as (cs & m & Hu8 & Hlen & Hoth & Htr & Hm & Hout & Hsucc).
  cbn zeta in *. repeat (split; [assumption|]).
  exists cs, m. repeat (split; [assumption|]). split; [|assumption].
  intros Hok.
  destruct (Hsucc Hok) as (? & ? & ? & ? & ? & ? & _ & _ & _ & _ & _ & _ & _ & _ & Hm' & _).
  exact Hm'.
Qed.

(** *** Where a failure can come from *)

Lemma channel_prob_Err probs channels c i s e :
  (channel_prob probs channels c i s).1 = Err e -> e = OutOfBounds.
Proof.
  unfold channel_prob, bind, index, lift, load8, read_u8.
  destruct (probs !! c) as [d|]; cbn; [|congruence].
  destruct (channels !! c) as [ch|]; cbn; [|congruence].
  destruct (i <? 0); cbn; [congruence|].
  destruct (mem_u8 (st_mem s) !! ch) as [blk|]; cbn; [|congruence].
  destruct (blk !! Z.to_nat i) as [v|]; cbn; [|congruence].
  destruct (d !! u8_index v); cbn; congruence.
Qed.

Lemma store64_Err p i v s e :
  (store64 p i v s).1 = Err e -> e = OutOfBounds.
Proof.
  unfold store64, write_f64.
  destruct (i <? 0); cbn; [congruence|].
  destruct (mem_f64 (st_mem s) !! p) as [blk|]; cbn; [|congruence].
  destruct (decide _); cbn; congruence.
Qed.

Lemma pixel_body_Err probs channels outimg i s e :
  (pixel_body probs channels outimg i s).1 = Err e -> e = OutOfBounds.
Proof.
  destruct (pixel_body_cases probs channels outimg i s) as [[e' E]|(v & _ & _ & E)];
    rewrite E.
  - destruct (channel_prob_cases probs channels 0 i s) as [[e0 E0]|(p0 & _ & _ & E0)].
    { unfold pixel_body in E. rewrite (bind_Err _ _ _ _ _ E0) in E.
      injection E as <-. intros [= <-]. apply (channel_prob_Err probs channels 0 i s).
      now rewrite E0. }
    destruct (channel_prob_cases probs channels 1 i s) as [[e1 E1]|(p1 & _ & _ & E1)].
    { unfold pixel_body in E.
      rewrite (bind_Ok _ _ _ _ _ E0), (bind_Err _ _ _ _ _ E1) in E.
      injection E as <-. intros [= <-]. apply (channel_prob_Err probs channels 1 i s).
      now rewrite E1. }
    destruct (channel_prob_cases probs channels 2 i s) as [[e2 E2]|(p2 & _ & _ & E2)].
    { unfold pixel_body in E.
      rewrite (bind_Ok _ _ _ _ _ E0), (bind_Ok _ _ _ _ _ E1), (bind_Err _ _ _ _ _ E2) in E.
      injection E as <-. intros [= <-]. apply (channel_prob_Err probs channels 2 i s).
      now rewrite E2. }
    unfold pixel_body in E.
    rewrite (bind_Ok _ _ _ _ _ E0), (bind_Ok _ _ _ _ _ E1), (bind_Ok _ _ _ _ _ E2) in E.
    intros [= <-].
    apply (store64_Err outimg i (float_to_double (fmul (fmul p0 p1) p2)) s).
    now rewrite E.
  - apply store64_Err.
Qed.

Lemma pixel_loop_Err probs channels outimg count :
  forall start s e,
    (for_range start count (pixel_body probs channels outimg) s).1 = Err e ->
    e = OutOfBounds.
Proof.
  induction count as [|count IH]; intros start s e; [discriminate|].
  cbn [for_range]. unfold bind at 1.
  destruct (pixel_body probs channels outimg start s) as [[[]|e'] s1] eqn:E.
  - apply IH.
  - intros [= <-]. apply (pixel_body_Err probs channels outimg start s). now rewrite E.
Qed.

Lemma kde_loop_Err channels mask W H idx :
  forall s e,
    (for_each (fun i => ch <- index channels i ;; call_kde KDE ch mask W H true)
              idx s).1 = Err e ->
    e = OutOfBounds \/
    exists i c, i ∈ idx /\ channels !! i = Some c /\
                KDE (mem_u8 (st_mem s)) c mask W H true = Err e.
Proof.
  induction idx as [|i idx IH]; intros s e; [discriminate|].
  cbn [for_each]. destruct (channels !! i) as [c|] eqn:Ec.
  2:{ unfold bind at 1. unfold bind at 1. unfold index, lift. rewrite Ec. cbn.
      intros [= <-]. now left. }
  assert (Hcall : (ch <- index channels i ;; call_kde KDE ch mask W H true) s =
                  (KDE (mem_u8 (st_mem s)) c mask W H true,
                   St (st_mem s) (st_trace s ++ [KdeCall c mask W H true]))).
  { now rewrite (bind_Ok _ _ _ _ _ (index_Ok _ _ _ _ Ec)), call_kde_run. }
  destruct (KDE (mem_u8 (st_mem s)) c mask W H true) as [d|e'] eqn:Ek.
  2:{ rewrite (bind_Err _ _ _ _ _ Hcall). cbn. intros [= <-]. right.
      exists i, c. split; [apply list_elem_of_here|]. auto. }
  rewrite (bind_Ok _ _ _ _ _ Hcall). set (s1 := St _ _) in *.
  destruct (for_each (fun i => ch <- index channels i ;; call_kde KDE ch mask W H true)
                     idx s1) as [[probs|e'] s2] eqn:Erun.
  - rewrite (bind_Ok _ _ _ _ _ Erun). discriminate.
  - rewrite (bind_Err _ _ _ _ _ Erun). cbn. intros [= <-].
    destruct (IH s1 e') as [->|(j & c' & Hj & Hc' & Hk)]; [now rewrite Erun|now left|].
    right. exists j, c'. split; [now apply list_elem_of_further|]. auto.
Qed.

Lemma ImageProbability_Err channels mask W H outimg s e :
  (ImageProbability KDE channels mask W H outimg s).1 = Err e ->
  e = OutOfBounds \/ e = SignedOverflow \/
  exists i c, (i < 3)%nat /\ channels !! i = Some c /\
              KDE (mem_u8 (st_mem s)) c mask W H true = Err e.
Proof.
  unfold ImageProbability.
  destruct (for_each (fun i => ch <- index channels i ;; call_kde KDE ch mask W H true)
                     [0; 1; 2]%nat s) as [[probs|e'] s1] eqn:Ekde.
  - rewrite (bind_Ok _ _ _ _ _ Ekde). unfold int_mul.
    destruct (in_int (W * H)).
    + rewrite (bind_Ok _ _ s1 (W * H) s1) by reflexivity.
      intros E. left. now apply pixel_loop_Err in E.
    + rewrite (bind_Err _ _ s1 SignedOverflow s1) by reflexivity.
      intros [= <-]. auto.
  - rewrite (bind_Err _ _ _ _ _ Ekde). cbn. intros [= <-].
    destruct (kde_loop_Err channels mask W H [0; 1; 2]%nat s e')
      as [->|(i & c & Hi & Hc & Hk)]; [now rewrite Ekde|now left|].
    right. right. exists i, c. split; [|auto].
    apply list_elem_of_In in Hi. cbn in Hi. lia.
Qed.

(** [main] stops at the first failed [CHECK_EQ], before anything else. *)
Lemma main_from_loaded_check W H lab_l lab_a lab_b fg bg fg_prob s :
  (cols fg, rows fg) <> (W, H) \/ (cols bg, rows bg) <> (W, H) ->
  main_from_loaded KDE W H lab_l lab_a lab_b fg bg fg_prob s = (Err CheckFailed, s).
Proof.
  intros Hne. unfold main_from_loaded, CHECK_EQ, bind, lift.
  destruct (decide (cols fg = W)) as [<-|]; [|reflexivity].
  destruct (decide (rows fg = H)) as [<-|]; [|reflexivity].
  destruct (decide (cols bg = cols fg)) as [E1|]; [|reflexivity].
  destruct (decide (rows bg = rows fg)) as [E2|]; [|reflexivity].
  rewrite E1, E2 in Hne. now destruct Hne.
Qed.

Lemma main_from_loaded_pass W H lab_l lab_a lab_b fg bg fg_prob s :
  (cols fg, rows fg) = (W, H) -> (cols bg, rows bg) = (W, H) ->
  main_from_loaded KDE W H lab_l lab_a lab_b fg bg fg_prob s =
    ImageProbability KDE [0; 1; 2]%nat 3%nat W H 0%nat
      (St (Mem [lab_l; lab_a; lab_b; data fg; data bg] [fg_prob]) (st_trace s)).
Proof.
  intros [= E1 E2] [= E3 E4].
  unfold main_from_loaded, CHECK_EQ, bind, lift, set_mem.
  now rewrite !decide_True by assumption.
Qed.

End ProgramFacts.

Section OrderFacts.
Context {ops : FloatOps} {ord : ProbOrder ops}.
Variable KDE :
  list (list byte) -> ptr -> ptr -> Z -> Z -> bool -> result (list float).

(** C8: on valid input (channel buffers of at least [W*H] entries, an output
    array of exactly [W*H] entries, three 256-entry densities of probability
    values) the call succeeds, the output still has exactly [W*H] entries,
    every entry is non-negative, and entry [i] is the value computed from
    pixel [i] of the three channel buffers: the output is in the pixel order
    of the inputs. *)
Theorem ImageProbability_shape_nonneg
    channels mask W H outimg s c0 c1 c2 b0 b1 b2 d0 d1 d2 out :
  channels !! 0%nat = Some c0 -> channels !! 1%nat = Some c1 ->
  channels !! 2%nat = Some c2 ->
  mem_u8 (st_mem s) !! c0 = Some b0 -> mem_u8 (st_mem s) !! c1 = Some b1 ->
  mem_u8 (st_mem s) !! c2 = Some b2 ->
  KDE (mem_u8 (st_mem s)) c0 mask W H true = Ok d0 ->
  KDE (mem_u8 (st_mem s)) c1 mask W H true = Ok d1 ->
  KDE (mem_u8 (st_mem s)) c2 mask W H true = Ok d2 ->
  length d0 = 256%nat -> length d1 = 256%nat -> length d2 = 256%nat ->
  Forall fprob d0 -> Forall fprob d1 -> Forall fprob d2 ->
  in_int (W * H) = true ->
  W * H <= Z.of_nat (length b0) -> W * H <= Z.of_nat (length b1) ->
  W * H <= Z.of_nat (length b2) ->
  mem_f64 (st_mem s) !! outimg = Some out -> Z.of_nat (length out) = W * H ->
  exists s' out',
    ImageProbability KDE channels mask W H outimg s = (Ok tt, s') /\
    mem_f64 (st_mem s') !! outimg = Some out' /\
    Z.of_nat (length out') = W * H /\
    Forall dnonneg out' /\
    forall i : nat, Z.of_nat i < W * H ->
      exists v0 v1 v2 p0 p1 p2,
        b0 !! i = Some v0 /\ b1 !! i = Some v1 /\ b2 !! i = Some v2 /\
        d0 !! u8_index v0 = Some p0 /\ d1 !! u8_index v1 = Some p1 /\
        d2 !! u8_index v2 = Some p2 /\
        out' !! i = Some (float_to_double (fmul (fmul p0 p1) p2)).
Proof.
  intros E0 E1 E2 B0 B1 B2 K0 K1 K2 L0 L1 L2 F0 F1 F2 Hint Hb0 Hb1 Hb2 Hout Hlen.
  destruct (ImageProbability_pixels KDE channels mask W H outimg s
              c0 c1 c2 b0 b1 b2 d0 d1 d2 out)
    as (s' & out' & Erun & Hout' & Hlen' & Hpix); try assumption; [lia|].
  exists s', out'. repeat (split; [assumption || lia|]). split; [|exact Hpix].
  apply Forall_lookup. intros i x Hx.
  assert (Hi : Z.of_nat i < W * H).
  { apply lookup_lt_Some in Hx. lia. }
  destruct (Hpix i Hi) as (v0 & v1 & v2 & p0 & p1 & p2 & _ & _ & _ & P0 & P1 & P2 & Hv).
  rewrite Hv in Hx. injection Hx as <-.
  apply to_double_nonneg. apply fmul_prob; [apply fmul_prob|].
  - exact (proj1 (Forall_lookup _ _) F0 _ _ P0).
  - exact (proj1 (Forall_lookup _ _) F1 _ _ P1).
  - exact (proj1 (Forall_lookup _ _) F2 _ _ P2).
Qed.

End OrderFacts.

(** ** The histogram and its normalisation *)


Lemma length_count_pixel h cm : length (count_pixel h cm) = length h.
Proof. unfold count_pixel. destruct (sampled cm.2); [apply length_alter|reflexivity]. Qed.

Lemma length_foldl_count l : forall h, length (foldl count_pixel h l) = length h.
Proof.
  induction l as [|cm l IH]; intros h; [reflexivity|].
  cbn [foldl]. now rewrite IH, length_count_pixel.
Qed.

Lemma length_histogram channel mask : length (histogram channel mask) = BINS.
Proof. unfold histogram. now rewrite length_foldl_count, length_replicate. Qed.



(** Bin [k] counts the sampled pixels of value [k]. *)
Lemma lookup_foldl_count l : forall h k,
  foldl count_pixel h l !! k = (fun c => c + bin_count k l)%nat <$> h !! k.
Proof.
  induction l as [|cm l IH]; intros h k.
  - cbn. destruct (h !! k); cbn; [f_equal; lia|reflexivity].
  - cbn [foldl]. rewrite IH. unfold count_pixel, bin_count. rewrite filter_cons.
    destruct (sampled cm.2) eqn:Es.
    + rewrite list_lookup_alter.
      destruct (decide (u8_index cm.1 = k)) as [->|Hne].
      * rewrite decide_True by auto.
        destruct (h !! k); cbn; [f_equal; lia|reflexivity].
      * rewrite decide_False by (intros [_ ?]; contradiction). reflexivity.
    + rewrite decide_False by (intros [? _]; discriminate). reflexivity.
Qed.

Lemma sampled_zip channel mask :
  length channel = length mask ->
  length (filter (fun cm : byte * byte => sampled cm.2 = true) (zip channel mask)) =
    sample_count mask.
Proof.
  unfold sample_count. revert mask.
  induction channel as [|c channel IH]; intros [|m mask] Hlen; try discriminate.
  - reflexivity.
  - cbn [zip zip_with]. rewrite !filter_cons. cbn [snd].
    destruct (decide (sampled m = true)); cbn; rewrite IH; auto.
Qed.


Lemma lookup_histogram channel mask k :
  (k < BINS)%nat ->
  histogram channel mask !! k = Some (bin_count k (zip channel mask)).
Proof.
  intros Hk. unfold histogram.
  rewrite lookup_foldl_count, lookup_replicate_2 by assumption. reflexivity.
Qed.

(** *** Rationals *)



Lemma Qc_of_nat_pos n : n <> 0%nat -> (0 < Qc_of_nat n)%Qc.
Proof.
  intros Hn. unfold Qc_of_nat. rewrite <- Z2Qc_inj_0.
  apply (proj1 (Z2Qc_inj_lt 0 (Z.of_nat n))). lia.
Qed.

Lemma Qc_of_nat_ne0 n : n <> 0%nat -> Qc_of_nat n <> 0%Qc.
Proof.
  intros Hn E. apply (Qclt_not_eq _ _ (Qc_of_nat_pos n Hn)). now symmetry.
Qed.



Lemma Qc_div_nonneg (x q : Qc) : (0 <= x)%Qc -> (0 < q)%Qc -> (0 <= x / q)%Qc.
Proof.
  intros Hx Hq. unfold Qcdiv. apply Qcmult_nonneg_nonneg; [assumption|].
  apply Qclt_le_weak. now apply Qcinv_pos.
Qed.

Lemma collect_Ok {A B} (f : A -> result B) (g : A -> B) (l : list A) :
  (forall a, f a = Ok (g a)) -> collect f l = Ok (g <$> l).
Proof.
  intros Hf. induction l as [|a l IH]; cbn; [reflexivity|].
  now rewrite Hf, IH.
Qed.

Lemma normalize_Ok h n :
  n <> 0%nat -> normalize h n = Ok ((fun x => x / Qc_of_nat n)%Qc <$> h).
Proof.
  intros Hn. unfold normalize. apply collect_Ok.
  intros x. unfold checked_div. now rewrite decide_False.
Qed.

(** ** The estimator of the spec *)

Section EstimatorFacts.
Variable smooth : list Qc -> list Qc.
Variable policy : empty_policy.

Lemma same_dimensions_length channel mask W H :
  same_dimensions channel mask W H = true -> length channel = length mask.
Proof.
  unfold same_dimensions. intros [Hc Hm]%andb_prop.
  apply bool_decide_eq_true in Hc, Hm. lia.
Qed.

Lemma estimate_mismatch channel mask W H smoothing :
  same_dimensions channel mask W H = false ->
  estimate smooth policy channel mask W H smoothing = Err DimensionMismatch.
Proof. intros E. unfold estimate. now rewrite E. Qed.

Lemma estimate_empty channel mask W H smoothing :
  same_dimensions channel mask W H = true -> sample_count mask = 0%nat ->
  estimate smooth policy channel mask W H smoothing = Ok (empty_density policy).
Proof. intros E Hn. unfold estimate. rewrite E, Hn. reflexivity. Qed.

Lemma estimate_sampled channel mask W H smoothing :
  same_dimensions channel mask W H = true -> sample_count mask <> 0%nat ->
  estimate smooth policy channel mask W H smoothing =
    Ok ((fun x => x / Qc_of_nat (sample_count mask))%Qc <$>
        (if smoothing then smooth (Qc_of_nat <$> histogram channel mask)
         else Qc_of_nat <$> histogram channel mask)).
Proof.
  intros E Hn. unfold estimate. rewrite E. cbn [negb].
  rewrite decide_False by assumption. now apply normalize_Ok.
Qed.

Lemma empty_density_length : length (empty_density policy) = BINS.
Proof. destruct policy; apply length_replicate. Qed.



(** C4: the estimator never divides by zero; on a mask that selects no pixel
    the call succeeds with the 256-entry density of the policy, which is the
    uniform density (1/256 everywhere) or the all-zero one. *)
Theorem estimate_empty_sample channel mask W H smoothing :
  estimate smooth policy channel mask W H smoothing <> Err DivisionByZero /\
  (same_dimensions channel mask W H = true -> sample_count mask = 0%nat ->
   estimate smooth policy channel mask W H smoothing = Ok (empty_density policy) /\
   length (empty_density policy) = 256%nat /\
   (empty_density policy = replicate 256 (1 / Qc_of_nat 256)%Qc \/
    empty_density policy = replicate 256 0%Qc)).
Proof.
  split.
  - destruct (same_dimensions channel mask W H) eqn:Hdim.
    + destruct (decide (sample_count mask = 0%nat)) as [Hn|Hn].
      * now rewrite estimate_empty.
      * now rewrite estimate_sampled.
    + now rewrite estimate_mismatch.
  - intros Hdim Hn. split; [now apply estimate_empty|].
    split; [apply empty_density_length|].
    destruct policy; [left|right]; reflexivity.
Qed.

Lemma bin_count_single (v : byte) k (l : list (byte * byte)) :
  (forall cm, cm ∈ l -> sampled cm.2 = true -> cm.1 = v) ->
  bin_count k l =
    if decide (k = u8_index v)
    then length (filter (fun cm : byte * byte => sampled cm.2 = true) l)
    else 0%nat.
Proof.
  unfold bin_count. induction l as [|cm l IH]; intros Hall.
  - cbn. now destruct (decide _).
  - rewrite !filter_cons.
    assert (IH' := IH (fun cm' Hin => Hall cm' (list_elem_of_further _ _ _ Hin))).
    destruct (decide (sampled cm.2 = true)) as [Hs|Hs].
    + rewrite (Hall cm (list_elem_of_here _ _) Hs) in *.
      destruct (decide (k = u8_index v)) as [->|Hk].
      * rewrite decide_True by auto. cbn. now rewrite IH'.
      * rewrite decide_False by (intros [_ ?]; congruence). exact IH'.
    + rewrite decide_False by (intros [? _]; contradiction).
      destruct (decide (k = u8_index v)); exact IH'.
Qed.

(** C6: with smoothing disabled, when the mask selects at least one pixel
    and every selected pixel has the channel value [v], the density is 1 at
    bin [v] and 0 at every other bin. *)
Theorem estimate_single_value channel mask W H (v : byte) :
  same_dimensions channel mask W H = true ->
  sample_count mask <> 0%nat ->
  (forall i c m, channel !! i = Some c -> mask !! i = Some m ->
                 sampled m = true -> c = v) ->
  exists d,
    estimate smooth policy channel mask W H false = Ok d /\
    length d = 256%nat /\
    forall k, (k < 256)%nat ->
      d !! k = Some (if decide (k = u8_index v) then 1%Qc else 0%Qc).
Proof.
  intros Hdim Hn Hall.
  rewrite estimate_sampled by assumption. eexists. split; [reflexivity|].
  split; [now rewrite !length_fmap, length_histogram|].
  intros k Hk. rewrite !list_lookup_fmap, lookup_histogram by exact Hk. cbn.
  rewrite (bin_count_single v).
  2:{ intros [c m] Hin Hs. cbn in *.
      apply list_elem_of_lookup in Hin as [i Hi].
      apply lookup_zip_with_Some in Hi as (c' & m' & [= <- <-] & Hc & Hm).
      eauto. }
  rewrite sampled_zip by now apply same_dimensions_length with W H.
  f_equal. destruct (decide (k = u8_index v)).
  - unfold Qcdiv. apply Qcmult_inv_r. now apply Qc_of_nat_ne0.
  - unfold Qc_of_nat at 1. change (Z.of_nat 0) with 0.
    rewrite Z2Qc_inj_0. unfold Qcdiv. apply Qcmult_0_l.
Qed.

End EstimatorFacts.

(** ** The example smoothing pass *)

Lemma length_blur h : forall p, length (blur p h) = length h.
Proof.
  induction h as [|x t IH]; intros p; [reflexivity|].
  destruct t as [|y t']; [reflexivity|].
  change (blur p (x :: y :: t')) with (((p + 2 * x + y) / Qc_of_Z 4)%Qc :: blur x (y :: t')).
  cbn [length]. now rewrite IH.
Qed.

Lemma length_box3 h : length (box3 h) = length h.
Proof. destruct h; [reflexivity|apply length_blur]. Qed.

Lemma four_pos : (0 < Qc_of_Z 4)%Qc.
Proof. rewrite <- Z2Qc_inj_0. apply (proj1 (Z2Qc_inj_lt 0 4)). lia. Qed.

Lemma blur_nonneg h : forall p,
  (0 <= p)%Qc -> Forall (fun x => (0 <= x)%Qc) h ->
  Forall (fun x => (0 <= x)%Qc) (blur p h).
Proof.
  assert (H2 : forall a b c : Qc, (0 <= a)%Qc -> (0 <= b)%Qc -> (0 <= c)%Qc ->
                                  (0 <= (a + 2 * b + c) / Qc_of_Z 4)%Qc).
  { intros a b c Ha Hb Hc. apply Qc_div_nonneg; [|apply four_pos].
    repeat apply Qcplus_nonneg_nonneg; try assumption.
    apply Qcmult_nonneg_nonneg; [discriminate|assumption]. }
  induction h as [|x t IH]; intros p Hp Hh; [constructor|].
  apply Forall_cons_1 in Hh as [Hx Ht].
  destruct t as [|y t'].
  - constructor; [|constructor]. now apply H2.
  - change (blur p (x :: y :: t')) with (((p + 2 * x + y) / Qc_of_Z 4)%Qc :: blur x (y :: t')).
    constructor.
    + apply H2; try assumption. now apply Forall_cons_1 in Ht as [? _].
    + now apply IH.
Qed.

Lemma box3_nonneg h :
  Forall (fun x => (0 <= x)%Qc) h -> Forall (fun x => (0 <= x)%Qc) (box3 h).
Proof.
  destruct h as [|x t]; [constructor|]. intros Hh.
  apply blur_nonneg; [|assumption]. now apply Forall_cons_1 in Hh as [? _].
Qed.

(** The mass that enters a blurred segment from its left neighbour stays. *)
Lemma Qc_sum_blur t : forall p x,
  (Qc_sum (blur p (x :: t)) * Qc_of_Z 4 =
   Qc_of_Z 4 * Qc_sum (x :: t) + p - x)%Qc.
Proof.
  pose proof (Qclt_not_eq _ _ four_pos) as H4.
  assert (H4' : Qc_of_Z 4 <> 0%Qc) by (intros E; apply H4; now symmetry).
  assert (Hfour : Qc_of_Z 4 = (1 + 1 + 1 + 1)%Qc).
  { change 4 with (1 + 1 + 1 + 1). now rewrite !Z2Qc_inj_add, Z2Qc_inj_1. }
  induction t as [|y t IH]; intros p x.
  - unfold Qc_sum. cbn [blur foldr]. rewrite Hfour in *. field. discriminate.
  - change (blur p (x :: y :: t)) with (((p + 2 * x + y) / Qc_of_Z 4)%Qc :: blur x (y :: t)).
    unfold Qc_sum in *. cbn [foldr] in *.
    rewrite Qcmult_plus_distr_l, IH. rewrite Hfour in *. field. discriminate.
Qed.

Lemma Qc_sum_box3 h : Qc_sum (box3 h) = Qc_sum h.
Proof.
  destruct h as [|x t]; [reflexivity|]. unfold box3.
  pose proof (Qc_sum_blur t x x) as E.
  pose proof (Qclt_not_eq _ _ four_pos) as H4.
  assert (H4' : Qc_of_Z 4 <> 0%Qc) by (intros E'; apply H4; now symmetry).
  assert (Hc : forall a : Qc, a = (a * Qc_of_Z 4 / Qc_of_Z 4)%Qc)
    by (intros a; field; assumption).
  rewrite (Hc (Qc_sum (blur x (x :: t)))), E. field. assumption.
Qed.

(** ** The windowed median *)







(** ** IEEE products of probability values *)

Lemma digits2_pos_lower (m : positive) :
  2 ^ (Zpos (digits2_pos m) - 1) <= Zpos m.
Proof.
  induction m as [m IH|m IH|]; cbn [digits2_pos].
  - rewrite Pos2Z.inj_succ.
    replace (Z.succ (Zpos (digits2_pos m)) - 1)
      with (Z.succ (Zpos (digits2_pos m) - 1)) by lia.
    rewrite Z.pow_succ_r by lia. lia.
  - rewrite Pos2Z.inj_succ.
    replace (Z.succ (Zpos (digits2_pos m)) - 1)
      with (Z.succ (Zpos (digits2_pos m) - 1)) by lia.
    rewrite Z.pow_succ_r by lia. lia.
  - reflexivity.
Qed.

(** A mantissa of at most [2^k] has at most [k+1] digits. *)
Lemma Zdigits2_le (m k : Z) :
  0 <= k -> 0 <= m <= 2 ^ k -> Zdigits2 m <= k + 1.
Proof.
  intros Hk [H0 Hm]. destruct m as [|p|p]; cbn [Zdigits2]; [lia| |lia].
  pose proof (digits2_pos_lower p) as Hlow.
  assert (Hpow : 2 ^ (Zpos (digits2_pos p) - 1) <= 2 ^ k) by lia.
  apply Z.pow_le_mono_r_iff in Hpow; lia.
Qed.

Lemma shr_1_inv (M k : Z) (r : shr_record) :
  0 <= k -> shr_inv M k r -> shr_inv M (k + 1) (shr_1 r).
Proof.
  intros Hk. unfold shr_inv. destruct r as [m r s]. cbn [shr_m shr_r shr_s].
  replace (k + 1) with (Z.succ k) by lia. rewrite Z.pow_succ_r by assumption.
  assert (HP : 0 < 2 ^ k) by (apply Z.pow_pos_nonneg; lia).
  set (P := 2 ^ k) in *. intros (H0 & Hle & Hex).
  destruct m as [|[p|p|]|p]; cbn [shr_1 shr_m shr_r shr_s]; try lia.
  - split; [lia|]. split; [lia|].
    destruct Hex as [[-> ->]|Hlt]; [left; auto|right; lia].
  - split; [lia|]. split; [lia|].
    destruct Hex as [[-> ->]|Hlt]; [left; auto|right; lia].
Qed.

Lemma iter_shr_1_inv (M : Z) (p : positive) :
  forall r k, 0 <= k -> shr_inv M k r ->
              shr_inv M (k + Zpos p) (SpecFloat.iter_pos shr_1 p r).
Proof.
  induction p as [p IH|p IH|]; intros r k Hk Hr; cbn [SpecFloat.iter_pos].
  - replace (k + Zpos p~1) with (k + 1 + Zpos p + Zpos p) by lia.
    apply IH; [lia|]. apply IH; [lia|]. now apply shr_1_inv.
  - replace (k + Zpos p~0) with (k + Zpos p + Zpos p) by lia.
    apply IH; [lia|]. now apply IH.
  - now apply shr_1_inv.
Qed.

Section Rounding.
Variables prec emax : Z.
Hypothesis prec_pos : 0 < prec.
Hypothesis emax_prec : prec <= emax.
Hypothesis emin_neg : 3 <= emax + prec.

(** The first step of rounding: the exponent does not decrease and the
    shifted mantissa is the quotient. *)
Lemma shr_fexp_inv (m e : Z) :
  0 <= m ->
  let res := shr_fexp prec emax m e loc_Exact in
  e <= res.2 /\ shr_inv m (res.2 - e) res.1 /\
  (res.2 = e \/ res.2 = fexp prec emax (Zdigits2 m + e)).
Proof.
  intros Hm. unfold shr_fexp, shr. cbn [shr_record_of_loc].
  destruct (fexp prec emax (Zdigits2 m + e) - e) as [|p|p] eqn:En; cbn [fst snd].
  - replace (e - e) with 0 by lia. unfold shr_inv. cbn. split; [lia|]. split; [|auto].
    split; [lia|]. split; [lia|]. left. auto.
  - split; [lia|]. split; [|right; lia].
    replace (e + Zpos p - e) with (0 + Zpos p) by lia.
    apply iter_shr_1_inv; [lia|]. unfold shr_inv. cbn.
    split; [lia|]. split; [lia|]. left. auto.
  - replace (e - e) with 0 by lia. unfold shr_inv. cbn. split; [lia|]. split; [|auto].
    split; [lia|]. split; [lia|]. left. auto.
Qed.

Lemma round_nearest_even_inv (M k : Z) (r : shr_record) :
  shr_inv M k r ->
  let m' := round_nearest_even (shr_m r) (loc_of_shr_record r) in
  m' = shr_m r \/ (m' = shr_m r + 1 /\ shr_m r * 2 ^ k < M).
Proof.
  unfold shr_inv. destruct r as [m [|] [|]]; cbn; intros (H0 & Hle & [[? ?]|Hlt]);
    try discriminate; auto.
  destruct (Z.even m); auto.
Qed.

(** The sign of a rounded non-negative mantissa: never a NaN, never
    negative. *)
Lemma binary_round_aux_sign (m e : Z) :
  0 <= m ->
  match binary_round_aux prec emax false m e loc_Exact with
  | S754_zero false | S754_finite false _ _ | S754_infinity false => True
  | _ => False
  end.
Proof.
  intros Hm. unfold binary_round_aux.
  pose proof (shr_fexp_inv m e Hm) as H1. cbn zeta in H1.
  destruct (shr_fexp prec emax m e loc_Exact) as [r1 e1]. cbn [fst snd] in H1.
  destruct H1 as (_ & Hinv1 & _).
  pose proof (round_nearest_even_inv _ _ _ Hinv1) as Hr. cbn zeta in Hr.
  assert (Hm2 : 0 <= round_nearest_even (shr_m r1) (loc_of_shr_record r1)).
  { destruct Hinv1 as (? & _). lia. }
  pose proof (shr_fexp_inv _ e1 Hm2) as H2. cbn zeta in H2.
  destruct (shr_fexp prec emax _ e1 loc_Exact) as [r2 e2]. cbn [fst snd] in H2.
  destruct H2 as (_ & (Hm3 & _) & _).
  destruct (shr_m r2) as [|p|p]; [exact I| |lia].
  destruct (e2 <=? emax - prec); exact I.
Qed.

(** Rounding a mantissa [M * 2^E] that is at most 1 gives a zero or a
    positive finite float that is at most 1. *)
Lemma binary_round_aux_prob (M : positive) (E : Z) :
  E <= 0 -> Zpos M <= 2 ^ (- E) ->
  prob32 (binary_round_aux prec emax false (Zpos M) E loc_Exact).
Proof.
  intros HE HM. unfold binary_round_aux.
  pose proof (shr_fexp_inv (Zpos M) E ltac:(lia)) as H1. cbn zeta in H1.
  destruct (shr_fexp prec emax (Zpos M) E loc_Exact) as [r1 e1]. cbn [fst snd] in H1.
  destruct H1 as (Hge1 & Hinv1 & He1).
  (* the exponent stays non-positive *)
  assert (He1' : e1 <= 0).
  { destruct He1 as [->| ->]; [assumption|].
    pose proof (Zdigits2_le (Zpos M) (- E) ltac:(lia) ltac:(lia)).
    unfold fexp, emin. lia. }
  (* the rounded mantissa is at most 2^(-e1) *)
  pose proof (round_nearest_even_inv _ _ _ Hinv1) as Hr. cbn zeta in Hr.
  set (m2 := round_nearest_even (shr_m r1) (loc_of_shr_record r1)) in *.
  assert (Hsplit : 2 ^ (- E) = 2 ^ (- e1) * 2 ^ (e1 - E)).
  { rewrite <- Z.pow_add_r by lia. f_equal. lia. }
  assert (HP : 0 < 2 ^ (e1 - E)) by (apply Z.pow_pos_nonneg; lia).
  assert (Hm2 : 0 <= m2 <= 2 ^ (- e1)).
  { destruct Hinv1 as (H0 & Hle & _). rewrite Hsplit in HM.
    destruct Hr as [->|[-> Hlt]]; split; try lia; nia. }
  pose proof (shr_fexp_inv m2 e1 ltac:(lia)) as H2. cbn zeta in H2.
  destruct (shr_fexp prec emax m2 e1 loc_Exact) as [r2 e2]. cbn [fst snd] in H2.
  destruct H2 as (Hge2 & (H0 & Hle & _) & He2).
  assert (He2' : e2 <= 0).
  { destruct He2 as [->| ->]; [assumption|].
    pose proof (Zdigits2_le m2 (- e1) ltac:(lia) Hm2).
    unfold fexp, emin. lia. }
  assert (Hsplit2 : 2 ^ (- e1) = 2 ^ (- e2) * 2 ^ (e2 - e1)).
  { rewrite <- Z.pow_add_r by lia. f_equal. lia. }
  assert (HP2 : 0 < 2 ^ (e2 - e1)) by (apply Z.pow_pos_nonneg; lia).
  destruct (shr_m r2) as [|p|p] eqn:Em3; [exact I| |lia].
  destruct (Z.leb_spec e2 (emax - prec)) as [_|?]; [|lia].
  cbn. split; [assumption|]. rewrite Hsplit2 in Hm2. nia.
Qed.

End Rounding.

Lemma prob32b_spec (x : spec_float) : Is_true (prob32b x) -> prob32 x.
Proof.
  destruct x as [s|s| |[|] m e]; cbn; try tauto.
  intros [He Hm]%Is_true_true%andb_prop.
  apply Z.leb_le in He, Hm. auto.
Qed.

Lemma binary32_mul_prob (x y : spec_float) :
  prob32 x -> prob32 y -> prob32 (binary32_mul x y).
Proof.
  destruct x as [sx|sx| |[|] mx ex], y as [sy|sy| |[|] my ey]; cbn; try tauto.
  intros [Hex Hmx] [Hey Hmy].
  apply binary_round_aux_prob; try lia.
  rewrite Pos2Z.inj_mul.
  replace (- (ex + ey)) with (- ex + - ey) by lia.
  rewrite Z.pow_add_r by lia.
  apply Z.mul_le_mono_nonneg; lia.
Qed.

Lemma binary32_to_binary64_nonneg (x : spec_float) :
  prob32 x -> nonneg64 (binary32_to_binary64 x).
Proof.
  destruct x as [s|s| |[|] m e]; cbn [prob32 binary32_to_binary64]; try tauto.
  - intros _. reflexivity.
  - intros _. unfold binary_round.
    destruct (shl_align m e _) as [mz ez].
    pose proof (binary_round_aux_sign 53 1024 (Zpos mz) ez ltac:(lia)) as Hs.
    unfold nonneg64.
    destruct (binary_round_aux 53 1024 false (Zpos mz) ez loc_Exact) as [[|]|[|]| |[|] ? ?];
      try contradiction; reflexivity.
Qed.

#[export] Instance ieee_order : ProbOrder ieee_ops := {|
  fprob := prob32;
  dnonneg := nonneg64;
  fmul_prob := binary32_mul_prob;
  to_double_nonneg := binary32_to_binary64_nonneg
|}.

(** ** The claims on the example inputs *)

Lemma ex_kde_Ok (c : ptr) :
  (c < 3)%nat -> ex_kde ex_u8 c 3%nat 2 2 true = Ok (ex_density c).
Proof.
  intros Hc. destruct c as [|[|[|c]]]; [vm_compute; reflexivity..|lia].
Defined.

Lemma ImageProbability_joint_product_witness :
  exists s' out',
    ImageProbability (ops := exact_ops) ex_kde [0; 1; 2]%nat 3%nat 2 2 0%nat ex_state
      = (Ok tt, s') /\
    mem_f64 (st_mem s') !! 0%nat = Some out' /\
    forall i : nat, Z.of_nat i < 2 * 2 ->
      exists v0 v1 v2 p0 p1 p2,
        [u8 0; u8 0; u8 255; u8 255] !! i = Some v0 /\
        [u8 7; u8 7; u8 9; u8 7] !! i = Some v1 /\
        [u8 30; u8 31; u8 30; u8 31] !! i = Some v2 /\
        ex_density 0 !! u8_index v0 = Some p0 /\
        ex_density 1 !! u8_index v1 = Some p1 /\
        ex_density 2 !! u8_index v2 = Some p2 /\
        out' !! i = Some ((p0 * p1) * p2)%Qc.
Proof.
  apply (ImageProbability_joint_product (ops := exact_ops)
           ex_kde [0; 1; 2]%nat 3%nat 2 2 0%nat ex_state
           0%nat 1%nat 2%nat _ _ _ _ _ _ ex_out);
    try reflexivity; try (apply ex_kde_Ok; lia); try (vm_compute; discriminate).
Defined.

Lemma ImageProbability_kde_calls_witness :
  exists c0 c1 c2 d0 d1 d2,
    [0; 1; 2]%nat !! 0%nat = Some c0 /\ [0; 1; 2]%nat !! 1%nat = Some c1 /\
    [0; 1; 2]%nat !! 2%nat = Some c2 /\
    ex_kde ex_u8 c0 3%nat 2 2 true = Ok d0 /\
    ex_kde ex_u8 c1 3%nat 2 2 true = Ok d1 /\
    ex_kde ex_u8 c2 3%nat 2 2 true = Ok d2 /\
    st_trace (ImageProbability (ops := exact_ops) ex_kde [0; 1; 2]%nat 3%nat 2 2
                0%nat ex_state).2 =
      [] ++
      [KdeCall c0 3%nat 2 2 true; KdeCall c1 3%nat 2 2 true;
       KdeCall c2 3%nat 2 2 true] ++
      (Store 0%nat <$> seqZ 0 (2 * 2)) /\
    forall blk' (k : nat),
      mem_f64 (st_mem (ImageProbability (ops := exact_ops) ex_kde [0; 1; 2]%nat
                         3%nat 2 2 0%nat ex_state).2) !! 0%nat = Some blk' ->
      Z.of_nat k < 2 * 2 ->
      blk' !! k = pixel_value (ops := exact_ops) ex_u8 [d0; d1; d2] [0; 1; 2]%nat
                  (Z.of_nat k).
Proof.
  apply (ImageProbability_kde_calls (ops := exact_ops)
           ex_kde [0; 1; 2]%nat 3%nat 2 2 0%nat ex_state).
  vm_compute. exact I.
Defined.

Lemma ImageProbability_frame_witness :
  let run := ImageProbability (ops := exact_ops) ex_kde [0; 1; 2]%nat 3%nat 2 2
               0%nat ex_state in
  mem_u8 (st_mem run.2) = ex_u8 /\
  length (mem_f64 (st_mem run.2)) = 1%nat /\
  (forall p, p <> 0%nat -> mem_f64 (st_mem run.2) !! p = [ex_out] !! p) /\
  exists (cs : list ptr) (m : nat),
    st_trace run.2 =
      [] ++ ((fun c => KdeCall c 3%nat 2 2 true) <$> cs) ++
      (Store 0%nat <$> seqZ 0 (Z.of_nat m)) /\
    Z.of_nat m <= Z.max 0 (2 * 2) /\
    (is_Ok run.1 -> Z.of_nat m = Z.max 0 (2 * 2)) /\
    (forall blk, [ex_out] !! 0%nat = Some blk ->
       exists blk', mem_f64 (st_mem run.2) !! 0%nat = Some blk' /\
                    length blk' = length blk /\
                    forall k : nat, (m <= k)%nat -> blk' !! k = blk !! k).
Proof.
  exact (ImageProbability_frame (ops := exact_ops)
           ex_kde [0; 1; 2]%nat 3%nat 2 2 0%nat ex_state).
Defined.

Lemma ex_kde32_Ok (c : ptr) :
  (c < 3)%nat -> ex_kde32 ex_u8 c 3%nat 2 2 true = Ok (ex_density32 c).
Proof.
  intros Hc. destruct c as [|[|[|c]]]; [vm_compute; reflexivity..|lia].
Defined.

Lemma Forall_prob32b (l : list spec_float) :
  Is_true (forallb prob32b l) -> Forall prob32 l.
Proof.
  induction l as [|x l IH]; cbn; [constructor|].
  intros [Hx Hl]%Is_true_true%andb_prop. constructor.
  - apply prob32b_spec. now apply Is_true_true.
  - apply IH. now apply Is_true_true.
Qed.

Lemma ex_density32_prob (c : ptr) : (c < 3)%nat -> Forall prob32 (ex_density32 c).
Proof.
  intros Hc. apply Forall_prob32b.
  destruct c as [|[|[|c]]]; [vm_compute; exact I..|lia].
Defined.

Lemma ImageProbability_shape_nonneg_witness :
  exists s' out',
    ImageProbability (ops := ieee_ops) ex_kde32 [0; 1; 2]%nat 3%nat 2 2 0%nat
      ex_state32 = (Ok tt, s') /\
    mem_f64 (st_mem s') !! 0%nat = Some out' /\
    Z.of_nat (length out') = 2 * 2 /\
    Forall nonneg64 out' /\
    forall i : nat, Z.of_nat i < 2 * 2 ->
      exists v0 v1 v2 p0 p1 p2,
        [u8 0; u8 0; u8 255; u8 255] !! i = Some v0 /\
        [u8 7; u8 7; u8 9; u8 7] !! i = Some v1 /\
        [u8 30; u8 31; u8 30; u8 31] !! i = Some v2 /\
        ex_density32 0 !! u8_index v0 = Some p0 /\
        ex_density32 1 !! u8_index v1 = Some p1 /\
        ex_density32 2 !! u8_index v2 = Some p2 /\
        out' !! i =
          Some (binary32_to_binary64 (binary32_mul (binary32_mul p0 p1) p2)).
Proof.
  apply (ImageProbability_shape_nonneg (ops := ieee_ops) (ord := ieee_order)
           ex_kde32 [0; 1; 2]%nat 3%nat 2 2 0%nat ex_state32
           0%nat 1%nat 2%nat _ _ _ _ _ _ (replicate 4 S754_nan));
    try reflexivity; try (apply ex_kde32_Ok; lia);
    try (apply ex_density32_prob; lia); try (vm_compute; discriminate).
Defined.



Lemma estimate_empty_sample_witness :
  estimate box3 ZeroOnEmpty sq_channel sq_unmasked 2 2 true <> Err DivisionByZero /\
  (same_dimensions sq_channel sq_unmasked 2 2 = true ->
   sample_count sq_unmasked = 0%nat ->
   estimate box3 ZeroOnEmpty sq_channel sq_unmasked 2 2 true
     = Ok (empty_density ZeroOnEmpty) /\
   length (empty_density ZeroOnEmpty) = 256%nat /\
   (empty_density ZeroOnEmpty = replicate 256 (1 / Qc_of_nat 256)%Qc \/
    empty_density ZeroOnEmpty = replicate 256 0%Qc)).
Proof.
  exact (estimate_empty_sample box3 ZeroOnEmpty sq_channel sq_unmasked 2 2 true).
Defined.

Lemma estimate_single_value_witness :
  exists d,
    estimate box3 UniformOnEmpty sq_channel sq_mask 2 2 false = Ok d /\
    length d = 256%nat /\
    forall k, (k < 256)%nat ->
      d !! k = Some (if decide (k = u8_index (u8 0)) then 1%Qc else 0%Qc).
Proof.
  apply (estimate_single_value box3 UniformOnEmpty sq_channel sq_mask 2 2 (u8 0)).
  - reflexivity.
  - vm_compute. discriminate.
  - intros i c m Hc Hm Hs.
    destruct i as [|[|[|[|i]]]]; cbn in Hc, Hm;
      try (injection Hc as <-; reflexivity);
      try (injection Hm as <-; vm_compute in Hs; discriminate Hs);
      discriminate Hc.
Defined.

(** ** The smoothing flag *)

Lemma collect_inv {A B} (f : A -> result B) (l : list A) :
  forall r, collect f l = Ok r -> Forall2 (fun a b => f a = Ok b) l r.
Proof.
  induction l as [|a l IH]; intros r; cbn.
  - intros [= <-]. constructor.
  - destruct (f a) as [b|] eqn:Ea; [|discriminate].
    destruct (collect f l) as [bs|]; [|discriminate].
    intros [= <-]. constructor; auto.
Qed.

Lemma estimate_at_lookup smooth policy mem c m bc bm W H smoothing :
  mem !! c = Some bc -> mem !! m = Some bm ->
  estimate_at smooth policy mem c m W H smoothing =
    estimate smooth policy bc bm W H smoothing.
Proof. intros Ec Em. unfold estimate_at, deref. now rewrite Ec, Em. Qed.

Section SmoothingFacts.
Variable smooth : list Qc -> list Qc.
Variable policy : empty_policy.

(** C3 (amended): [ImageProbability] has no smoothing parameter; it asks the
    estimator for smoothed densities on every call ([median_filter = true]),
    so that, run with the estimator of the spec, it stores the probability map
    of the spec's contract taken at [smoothing = true], whenever that map is
    defined. *)
Theorem ImageProbability_always_smoothed
    (s : state (ops := exact_ops)) c0 c1 c2 mask b0 b1 b2 bm W H outimg out pm :
  mem_u8 (st_mem s) !! c0 = Some b0 -> mem_u8 (st_mem s) !! c1 = Some b1 ->
  mem_u8 (st_mem s) !! c2 = Some b2 -> mem_u8 (st_mem s) !! mask = Some bm ->
  mem_f64 (st_mem s) !! outimg = Some out -> W * H <= Z.of_nat (length out) ->
  in_int (W * H) = true ->
  jointProbability smooth policy [b0; b1; b2] bm W H true = Ok pm ->
  exists s',
    ImageProbability (ops := exact_ops) (estimate_at smooth policy)
      [c0; c1; c2] mask W H outimg s = (Ok tt, s') /\
    mem_f64 (st_mem s') !! outimg = Some (pm ++ drop (length pm) out) /\
    st_trace s' =
      st_trace s ++
      [KdeCall c0 mask W H true; KdeCall c1 mask W H true;
       KdeCall c2 mask W H true] ++
      (Store outimg <$> seqZ 0 (W * H)).
Proof.
  intros B0 B1 B2 Bm Hout Hlen Hint Hjoint.
  unfold jointProbability in Hjoint.
  destruct (collect _ [b0; b1; b2]) as [ds|] eqn:Eds; [|discriminate].
  apply collect_inv in Eds.
  inversion Eds as [|? d0 ? ds0 K0 Eds0]; subst.
  inversion Eds0 as [|? d1 ? ds1 K1 Eds1]; subst.
  inversion Eds1 as [|? d2 ? ds2 K2 Eds2]; subst.
  inversion Eds2; subst. clear Eds Eds0 Eds1 Eds2.
  apply collect_inv in Hjoint.
  assert (Hpm : length pm = Z.to_nat (W * H)).
  { apply Forall2_length in Hjoint. now rewrite length_seq in Hjoint. }
  assert (Hpix : forall i : nat, (i < Z.to_nat (W * H))%nat ->
            exists v, pm !! i = Some v /\
              pixel_value (ops := exact_ops) (mem_u8 (st_mem s))
                [d0; d1; d2] [c0; c1; c2] (Z.of_nat i) = Some v).
  { intros i Hi.
    destruct (Forall2_lookup_l _ _ _ i i Hjoint) as (v & Hv & Hprod);
      [now apply lookup_seq_lt|].
    exists v. split; [exact Hv|].
    cbn [zip zip_with] in Hprod.
    destruct (collect _ [(b0, d0); (b1, d1); (b2, d2)]) as [ps|] eqn:Eps; [|discriminate].
    apply collect_inv in Eps.
    inversion Eps as [|? p0 ? ps0 P0 Eps0]; subst.
    inversion Eps0 as [|? p1 ? ps1 P1 Eps1]; subst.
    inversion Eps1 as [|? p2 ? ps2 P2 Eps2]; subst.
    inversion Eps2; subst. clear Eps Eps0 Eps1 Eps2.
    injection Hprod as <-. cbn [fst snd] in P0, P1, P2.
    unfold pixel_value, prob_at. cbn [lookup list_lookup mbind option_bind].
    rewrite B0, B1, B2, Nat2Z.id. cbn [mbind option_bind].
    destruct (b0 !! i) as [v0|]; [|discriminate]. cbn in P0 |- *.
    destruct (d0 !! u8_index v0) as [q0|]; [|discriminate]. injection P0 as ->.
    destruct (b1 !! i) as [v1|]; [|discriminate]. cbn in P1 |- *.
    destruct (d1 !! u8_index v1) as [q1|]; [|discriminate]. injection P1 as ->.
    destruct (b2 !! i) as [v2|]; [|discriminate]. cbn in P2 |- *.
    destruct (d2 !! u8_index v2) as [q2|]; [|discriminate]. injection P2 as ->.
    cbn. f_equal. ring. }
  destruct (ImageProbability_run (ops := exact_ops) (estimate_at smooth policy)
              [c0; c1; c2] mask W H outimg s c0 c1 c2 d0 d1 d2 out)
    as (out' & Erun & Elen & Elk); try reflexivity; try assumption.
  1-3: now erewrite estimate_at_lookup by eassumption.
  { intros i Hi. destruct (Hpix (Z.to_nat i)) as (v & _ & Hv); [lia|].
    rewrite Z2Nat.id in Hv by lia. exists v. exact Hv. }
  eexists. split; [exact Erun|]. cbn [st_mem st_trace mem_f64]. split; [|reflexivity].
  rewrite list_lookup_insert_eq by now apply lookup_lt_Some with out.
  f_equal. apply list_eq. intros k. rewrite Elk.
  destruct (decide (Z.of_nat k < W * H)) as [Hk|Hk].
  - destruct (Hpix k) as (v & Hv & Hv'); [lia|].
    transitivity (Some v); [exact Hv'|]. symmetry.
    transitivity (pm !! k); [|exact Hv].
    apply lookup_app_l. rewrite Hpm. lia.
  - symmetry. etrans; [apply lookup_app_r; rewrite Hpm; lia|].
    rewrite lookup_drop. f_equal. lia.
Qed.

End SmoothingFacts.

(** C3, as stated, fails: on the 1x1 image with channel values (10, 20, 30)
    the spec's contract with [smoothing = false] yields the map [[1]], while
    [ImageProbability], which offers no such choice, stores [1/8] (the map of
    [smoothing = true]): all three of its estimator calls carry [true]. *)
Lemma ImageProbability_has_no_smoothing_choice :
  jointProbability box3 UniformOnEmpty [[u8 10]; [u8 20]; [u8 30]] [u8 1] 1 1 false
    = Ok [1%Qc] /\
  mem_f64 (st_mem (ImageProbability (ops := exact_ops) ex_kde [0; 1; 2]%nat 3%nat
                     1 1 0%nat px_state).2) !! 0%nat
    = Some [(1 / Qc_of_Z 8)%Qc] /\
  [(1 / Qc_of_Z 8)%Qc] <> [1%Qc] /\
  st_trace (ImageProbability (ops := exact_ops) ex_kde [0; 1; 2]%nat 3%nat
              1 1 0%nat px_state).2
    = [KdeCall 0%nat 3%nat 1 1 true; KdeCall 1%nat 3%nat 1 1 true;
       KdeCall 2%nat 3%nat 1 1 true; Store 0%nat 0].
Proof.
  split; [|split; [|split]].
  - refine (bool_decide_unpack _ _). vm_compute. exact I.
  - refine (bool_decide_unpack _ _). vm_compute. exact I.
  - refine (bool_decide_unpack _ _). vm_compute. exact I.
  - vm_compute. reflexivity.
Qed.

Lemma ImageProbability_always_smoothed_witness :
  let pm := density_of (jointProbability box3 UniformOnEmpty
                          [[u8 10]; [u8 20]; [u8 30]] [u8 1] 1 1 true) in
  exists s',
    ImageProbability (ops := exact_ops) (estimate_at box3 UniformOnEmpty)
      [0; 1; 2]%nat 3%nat 1 1 0%nat px_state = (Ok tt, s') /\
    mem_f64 (st_mem s') !! 0%nat = Some (pm ++ drop (length pm) [0%Qc]) /\
    st_trace s' =
      [] ++
      [KdeCall 0%nat 3%nat 1 1 true; KdeCall 1%nat 3%nat 1 1 true;
       KdeCall 2%nat 3%nat 1 1 true] ++
      (Store 0%nat <$> seqZ 0 (1 * 1)).
Proof.
  apply (ImageProbability_always_smoothed box3 UniformOnEmpty px_state
           0%nat 1%nat 2%nat 3%nat [u8 10] [u8 20] [u8 30] [u8 1] 1 1 0%nat [0%Qc]);
    reflexivity.
Defined.

(** The 1x1 image (10, 20, 30) in IEEE arithmetic: each smoothed density
    holds 1/2 at the pixel's value, and the stored [double] is their binary32
    product 1/8, that is [2^52 * 2^-55]. *)
Example ImageProbability_ieee_pixel :
  mem_f64 (st_mem (ImageProbability (ops := ieee_ops) ex_kde32 [0; 1; 2]%nat 3%nat
                     1 1 0%nat
                     (St (ops := ieee_ops)
                         (Mem (ops := ieee_ops) px_u8 [[S754_nan]]) [])).2)
    = [[S754_finite false 4503599627370496 (-55)]].
Proof. vm_compute. reflexivity. Qed.

(** The flag is a parameter of the export routine only: its six estimator
    calls carry the caller's choice. *)
Example SaveForegroundBackgroundDensities_passes_flag :
  st_trace (SaveForegroundBackgroundDensities (ops := exact_ops) ex_kde
              [0; 1; 2]%nat 3%nat 3%nat 2 2 false ex_state).2
    = [KdeCall 0%nat 3%nat 2 2 false; KdeCall 0%nat 3%nat 2 2 false;
       KdeCall 1%nat 3%nat 2 2 false; KdeCall 1%nat 3%nat 2 2 false;
       KdeCall 2%nat 3%nat 2 2 false; KdeCall 2%nat 3%nat 2 2 false].
Proof. vm_compute. reflexivity. Qed.

(** ** The smoothing test of the spec depends on the kernel

    On a histogram with one isolated single-pixel spike (one sampled pixel of
    value 10), the 3-bin average moves mass to the neighbouring bins and keeps
    the sum at 1, while the 3-bin median erases the spike: what smoothing does
    to a spike is decided by the kernel, which the spec leaves open. *)

Example spike_box3 :
  let d := density_of (estimate box3 ZeroOnEmpty [u8 10] [u8 1] 1 1 true) in
  d !! 9%nat = Some (1 / Qc_of_Z 4)%Qc /\ d !! 10%nat = Some (1 / Qc_of_Z 2)%Qc /\
  d !! 11%nat = Some (1 / Qc_of_Z 4)%Qc /\ Qc_sum d = 1%Qc /\
  d <> density_of (estimate box3 ZeroOnEmpty [u8 10] [u8 1] 1 1 false).
Proof.
  cbn zeta. repeat split; refine (bool_decide_unpack _ _); vm_compute; exact I.
Qed.

Example spike_median3 :
  let d := density_of (estimate median_filter3 ZeroOnEmpty [u8 10] [u8 1] 1 1 true) in
  d = replicate 256 0%Qc /\ Qc_sum d = 0%Qc /\
  d <> density_of (estimate median_filter3 ZeroOnEmpty [u8 10] [u8 1] 1 1 false).
Proof.
  cbn zeta. repeat split; refine (bool_decide_unpack _ _); vm_compute; exact I.
Qed.

(** * More of the program *)

(** ** [ImageProbability]: when it succeeds, and where it stops *)

Section RunFacts.
Context {ops : FloatOps}.
Variable KDE :
  list (list byte) -> ptr -> ptr -> Z -> Z -> bool -> result (list float).

(** A pixel loop that ran to its end could read every pixel of its range
    and had room for it in the output array. *)
Lemma pixel_loop_Ok_inv probs channels outimg count :
  forall start s s',
    0 <= start ->
    for_range start count (pixel_body probs channels outimg) s = (Ok tt, s') ->
    (forall j, start <= j < start + Z.of_nat count ->
       is_Some (pixel_value (mem_u8 (st_mem s)) probs channels j)) /\
    (count <> 0%nat ->
       exists blk, mem_f64 (st_mem s) !! outimg = Some blk /\
                   start + Z.of_nat count <= Z.of_nat (length blk)).
Proof.
  induction count as [|count IH]; intros start s s' H0 E.
  - split; [intros; lia|congruence].
  - cbn [for_range] in E.
    destruct (pixel_body_cases probs channels outimg start s)
      as [[e Ee]|(v & _ & Hv & Eb)].
    { rewrite (bind_Err _ _ _ _ _ Ee) in E. discriminate. }
    destruct (store64_cases outimg start v s) as [[e Ee]|(blk & _ & Hblk & Hlt & Es)].
    { rewrite Ee in Eb. rewrite (bind_Err _ _ _ _ _ Eb) in E. discriminate. }
    rewrite Es in Eb. rewrite (bind_Ok _ _ _ _ _ Eb) in E.
    assert (H1 : 0 <= start + 1) by lia.
    destruct (IH _ _ _ H1 E) as [Hpix Hbuf]. cbn [st_mem mem_u8 mem_f64] in *.
    split.
    + intros j Hj. destruct (decide (j = start)) as [->|].
      * rewrite Hv. eauto.
      * apply Hpix. lia.
    + intros _. exists blk. split; [assumption|].
      destruct count as [|count']; [lia|].
      destruct Hbuf as (blk1 & Hblk1 & Hlen1); [discriminate|].
      rewrite list_lookup_insert_eq in Hblk1 by (now apply lookup_lt_Some with blk).
      injection Hblk1 as <-. rewrite length_insert in Hlen1. lia.
Qed.

(** What a successful call tells about its inputs. *)
Lemma ImageProbability_Ok_inv channels mask W H outimg s :
  is_Ok (ImageProbability KDE channels mask W H outimg s).1 ->
  exists c0 c1 c2 d0 d1 d2,
    channels !! 0%nat = Some c0 /\ channels !! 1%nat = Some c1 /\
    channels !! 2%nat = Some c2 /\
    KDE (mem_u8 (st_mem s)) c0 mask W H true = Ok d0 /\
    KDE (mem_u8 (st_mem s)) c1 mask W H true = Ok d1 /\
    KDE (mem_u8 (st_mem s)) c2 mask W H true = Ok d2 /\
    in_int (W * H) = true /\
    (0 < W * H ->
       exists out, mem_f64 (st_mem s) !! outimg = Some out /\
                   W * H <= Z.of_nat (length out)) /\
    (forall i, 0 <= i < W * H ->
       is_Some (pixel_value (mem_u8 (st_mem s)) [d0; d1; d2] channels i)).
Proof.
  intros Hok.
  destruct (ImageProbability_any_run KDE channels mask W H outimg s)
    as (cs & m & _ & _ & _ & _ & _ & _ & Hsucc).
  cbn zeta in Hsucc.
  destruct (Hsucc Hok)
    as (c0 & c1 & c2 & d0 & d1 & d2 & _ & E0 & E1 & E2 & K0 & K1 & K2 & Hint & _ & _).
  exists c0, c1, c2, d0, d1, d2. repeat (split; [assumption|]).
  pose proof (kde_loop_run KDE channels mask W H s _ _ _ _ _ _ E0 E1 E2 K0 K1 K2) as Hkde.
  unfold ImageProbability in Hok. rewrite (bind_Ok _ _ _ _ _ Hkde) in Hok.
  unfold int_mul in Hok. rewrite Hint in Hok.
  set (s1 := St _ _) in Hok.
  rewrite (bind_Ok _ _ s1 (W * H) s1) in Hok by reflexivity.
  destruct (for_range 0 (Z.to_nat (W * H)) (pixel_body [d0; d1; d2] channels outimg) s1)
    as [[[]|e] s'] eqn:Erun; [|contradiction].
  destruct (pixel_loop_Ok_inv _ _ _ _ _ _ _ (Z.le_refl 0) Erun) as [Hpix Hbuf].
  split.
  - intros Hpos. destruct Hbuf as (out & Hout & Hlen); [lia|].
    exists out. split; [exact Hout|]. lia.
  - intros i Hi. apply Hpix. lia.
Qed.

Lemma ImageProbability_no_pixel channels mask W H outimg s c0 c1 c2 d0 d1 d2 :
  channels !! 0%nat = Some c0 -> channels !! 1%nat = Some c1 ->
  channels !! 2%nat = Some c2 ->
  KDE (mem_u8 (st_mem s)) c0 mask W H true = Ok d0 ->
  KDE (mem_u8 (st_mem s)) c1 mask W H true = Ok d1 ->
  KDE (mem_u8 (st_mem s)) c2 mask W H true = Ok d2 ->
  ImageProbability KDE channels mask W H outimg s =
    let s1 := St (st_mem s)
                 (st_trace s ++ [KdeCall c0 mask W H true; KdeCall c1 mask W H true;
                                 KdeCall c2 mask W H true]) in
    if in_int (W * H)
    then for_range 0 (Z.to_nat (W * H)) (pixel_body [d0; d1; d2] channels outimg) s1
    else (Err SignedOverflow, s1).
Proof.
  intros E0 E1 E2 K0 K1 K2.
  pose proof (kde_loop_run KDE channels mask W H s _ _ _ _ _ _ E0 E1 E2 K0 K1 K2) as Hkde.
  unfold ImageProbability. rewrite (bind_Ok _ _ _ _ _ Hkde). cbn zeta.
  unfold int_mul. now destruct (in_int (W * H)).
Qed.

(** The estimator loop stops at the first channel whose estimate fails. *)
Lemma kde_loop_stop channels mask W H i c e post :
  forall idx cs s,
    Forall2 (fun j c' => channels !! j = Some c' /\
                         is_Ok (KDE (mem_u8 (st_mem s)) c' mask W H true)) idx cs ->
    channels !! i = Some c ->
    KDE (mem_u8 (st_mem s)) c mask W H true = Err e ->
    for_each (fun j => ch <- index channels j ;; call_kde KDE ch mask W H true)
             (idx ++ i :: post) s =
      (Err e, St (st_mem s)
                 (st_trace s ++ ((fun c => KdeCall c mask W H true) <$> cs ++ [c]))).
Proof.
  induction idx as [|j idx IH]; intros cs s Hcs Ec Ke.
  - inversion Hcs; subst. cbn [app for_each fmap list_fmap].
    apply bind_Err.
    rewrite (bind_Ok _ _ _ _ _ (index_Ok _ _ _ _ Ec)), call_kde_run. now rewrite Ke.
  - inversion Hcs as [|? c' ? cs' [Ej Kj] Hcs']; subst.
    destruct (KDE (mem_u8 (st_mem s)) c' mask W H true) as [d|] eqn:Kd; [|contradiction].
    cbn [app for_each].
    assert (Hcall : (ch <- index channels j ;; call_kde KDE ch mask W H true) s =
                    (Ok d, St (st_mem s) (st_trace s ++ [KdeCall c' mask W H true]))).
    { rewrite (bind_Ok _ _ _ _ _ (index_Ok _ _ _ _ Ej)), call_kde_run. now rewrite Kd. }
    rewrite (bind_Ok _ _ _ _ _ Hcall). set (s1 := St _ _).
    rewrite (bind_Err _ _ s1 e
               (St (st_mem s1)
                   (st_trace s1 ++ ((fun c => KdeCall c mask W H true) <$> cs' ++ [c])))).
    + cbn [s1 st_mem st_trace]. now rewrite <- app_assoc.
    + apply IH; assumption.
Qed.

(** X1: the call succeeds exactly on these inputs: the array [channels] has
    its three pointers, the estimator gives a density for each of them, [W*H]
    is an [int], and, when there is a pixel at all, the output array is there
    with at least [W*H] entries and every pixel below [W*H] can be read in
    each channel and looked up in that channel's density. *)
Theorem ImageProbability_succeeds_iff channels mask W H outimg s :
  is_Ok (ImageProbability KDE channels mask W H outimg s).1 <->
  exists c0 c1 c2 d0 d1 d2,
    channels !! 0%nat = Some c0 /\ channels !! 1%nat = Some c1 /\
    channels !! 2%nat = Some c2 /\
    KDE (mem_u8 (st_mem s)) c0 mask W H true = Ok d0 /\
    KDE (mem_u8 (st_mem s)) c1 mask W H true = Ok d1 /\
    KDE (mem_u8 (st_mem s)) c2 mask W H true = Ok d2 /\
    in_int (W * H) = true /\
    (0 < W * H ->
       exists out, mem_f64 (st_mem s) !! outimg = Some out /\
                   W * H <= Z.of_nat (length out)) /\
    (forall i, 0 <= i < W * H ->
       is_Some (pixel_value (mem_u8 (st_mem s)) [d0; d1; d2] channels i)).
Proof.
  split; [apply ImageProbability_Ok_inv|].
  intros (c0 & c1 & c2 & d0 & d1 & d2 & E0 & E1 & E2 & K0 & K1 & K2 & Hint & Hbuf & Hpix).
  destruct (Z.le_gt_cases (W * H) 0) as [Hle|Hgt].
  - rewrite (ImageProbability_no_pixel channels mask W H outimg s c0 c1 c2 d0 d1 d2)
      by assumption.
    cbn zeta. rewrite Hint. replace (Z.to_nat (W * H)) with 0%nat by lia. exact I.
  - destruct Hbuf as (out & Hout & Hlen); [lia|].
    destruct (ImageProbability_run KDE channels mask W H outimg s c0 c1 c2 d0 d1 d2 out)
      as (out' & Erun & _); try assumption.
    rewrite Erun. exact I.
Qed.

(** X2: an image without pixels ([W*H <= 0]) still costs the three estimator
    calls; nothing is stored, the memory is as before, and neither the
    channel buffers nor the output array need to exist. *)
Theorem ImageProbability_empty_image channels mask W H outimg s c0 c1 c2 d0 d1 d2 :
  channels !! 0%nat = Some c0 -> channels !! 1%nat = Some c1 ->
  channels !! 2%nat = Some c2 ->
  KDE (mem_u8 (st_mem s)) c0 mask W H true = Ok d0 ->
  KDE (mem_u8 (st_mem s)) c1 mask W H true = Ok d1 ->
  KDE (mem_u8 (st_mem s)) c2 mask W H true = Ok d2 ->
  in_int (W * H) = true -> W * H <= 0 ->
  ImageProbability KDE channels mask W H outimg s =
    (Ok tt, St (st_mem s)
               (st_trace s ++ [KdeCall c0 mask W H true; KdeCall c1 mask W H true;
                               KdeCall c2 mask W H true])).
Proof.
  intros E0 E1 E2 K0 K1 K2 Hint Hle.
  rewrite (ImageProbability_no_pixel channels mask W H outimg s c0 c1 c2 d0 d1 d2)
    by assumption.
  cbn zeta. rewrite Hint. now replace (Z.to_nat (W * H)) with 0%nat by lia.
Qed.

(** X4: the call fails fast on the estimator: if the estimates of the
    channels [cs] before some channel [c] succeed and the estimate of [c]
    fails with [e], the call fails with [e], the estimator has been called for
    [cs] and for [c] and for no later channel, and nothing has been stored:
    the memory is as before. *)
Theorem ImageProbability_estimator_failure channels mask W H outimg s cs c e :
  (length cs < 3)%nat ->
  (forall i c', cs !! i = Some c' ->
     channels !! i = Some c' /\
     is_Ok (KDE (mem_u8 (st_mem s)) c' mask W H true)) ->
  channels !! length cs = Some c ->
  KDE (mem_u8 (st_mem s)) c mask W H true = Err e ->
  ImageProbability KDE channels mask W H outimg s =
    (Err e, St (st_mem s)
               (st_trace s ++ ((fun c => KdeCall c mask W H true) <$> cs ++ [c]))).
Proof.
  intros Hlen Hcs Ec Ke. unfold ImageProbability. apply bind_Err.
  destruct cs as [|a [|b [|? ?]]]; cbn [length] in *; [| | |lia].
  - apply (kde_loop_stop channels mask W H 0%nat c e [1; 2]%nat [] []);
      [apply Forall2_nil|assumption..].
  - apply (kde_loop_stop channels mask W H 1%nat c e [2]%nat [0]%nat [a]);
      [|assumption..].
    apply Forall2_cons; [apply (Hcs 0%nat a eq_refl)|apply Forall2_nil].
  - apply (kde_loop_stop channels mask W H 2%nat c e [] [0; 1]%nat [a; b]);
      [|assumption..].
    apply Forall2_cons; [apply (Hcs 0%nat a eq_refl)|].
    apply Forall2_cons; [apply (Hcs 1%nat b eq_refl)|apply Forall2_nil].
Qed.

(** X6: running the call again changes nothing.  After a successful call, a
    second call with the same arguments succeeds as well and leaves the whole
    memory, the output array included, as the first call left it. *)
Theorem ImageProbability_idempotent channels mask W H outimg s s1 :
  ImageProbability KDE channels mask W H outimg s = (Ok tt, s1) ->
  exists s2,
    ImageProbability KDE channels mask W H outimg s1 = (Ok tt, s2) /\
    st_mem s2 = st_mem s1.
Proof.
  intros Erun.
  destruct (ImageProbability_Ok_inv channels mask W H outimg s)
    as (c0 & c1 & c2 & d0 & d1 & d2 & E0 & E1 & E2 & K0 & K1 & K2 & Hint & Hbuf & Hpix).
  { now rewrite Erun. }
  destruct (Z.le_gt_cases (W * H) 0) as [Hle|Hgt].
  - rewrite (ImageProbability_no_pixel channels mask W H outimg s c0 c1 c2 d0 d1 d2)
      in Erun by assumption.
    cbn zeta in Erun. rewrite Hint in Erun.
    replace (Z.to_nat (W * H)) with 0%nat in Erun by lia.
    injection Erun as <-.
    rewrite (ImageProbability_no_pixel channels mask W H outimg _ c0 c1 c2 d0 d1 d2)
      by assumption.
    cbn zeta. rewrite Hint. replace (Z.to_nat (W * H)) with 0%nat by lia.
    eexists. split; reflexivity.
  - destruct Hbuf as (out & Hout & Hlen); [lia|].
    destruct (ImageProbability_run KDE channels mask W H outimg s c0 c1 c2 d0 d1 d2 out)
      as (out' & Erun' & Elen & Elk); try assumption.
    rewrite Erun' in Erun. injection Erun as <-.
    assert (Hout' : <[outimg := out']> (mem_f64 (st_mem s)) !! outimg = Some out').
    { apply list_lookup_insert_eq. now apply lookup_lt_Some with out. }
    destruct (ImageProbability_run KDE channels mask W H outimg
                (St (Mem (mem_u8 (st_mem s)) (<[outimg := out']> (mem_f64 (st_mem s))))
                    (st_trace s ++
                     [KdeCall c0 mask W H true; KdeCall c1 mask W H true;
                      KdeCall c2 mask W H true] ++
                     (Store outimg <$> seqZ 0 (W * H))))
                c0 c1 c2 d0 d1 d2 out')
      as (out'' & Erun'' & _ & Elk'); try assumption; [lia|].
    eexists. split; [exact Erun''|]. cbn [st_mem mem_u8 mem_f64].
    rewrite list_insert_insert_eq. do 2 f_equal.
    apply list_eq. intros k. rewrite Elk'. cbn [st_mem mem_u8].
    destruct (decide (Z.of_nat k < W * H)) as [Hk|Hk]; [|reflexivity].
    rewrite Elk. now rewrite decide_True by assumption.
Qed.

End RunFacts.

(** *** On example inputs *)

Lemma ImageProbability_empty_image_witness :
  ImageProbability (ops := exact_ops) ex_kde [0; 1; 2]%nat 3%nat 0 7 0%nat
    (St (ops := exact_ops) (Mem (ops := exact_ops) [[]; []; []; []] []) []) =
  (Ok tt,
   St (ops := exact_ops) (Mem (ops := exact_ops) [[]; []; []; []] [])
      ([] ++ [KdeCall 0%nat 3%nat 0 7 true; KdeCall 1%nat 3%nat 0 7 true;
              KdeCall 2%nat 3%nat 0 7 true])).
Proof.
  apply (ImageProbability_empty_image (ops := exact_ops) ex_kde [0; 1; 2]%nat 3%nat
           0 7 0%nat
           (St (ops := exact_ops) (Mem (ops := exact_ops) [[]; []; []; []] []) [])
           0%nat 1%nat 2%nat
           (empty_density UniformOnEmpty) (empty_density UniformOnEmpty)
           (empty_density UniformOnEmpty));
    try reflexivity; vm_compute; discriminate.
Defined.

Lemma ImageProbability_estimator_failure_witness :
  ImageProbability (ops := exact_ops) ex_kde [0; 1; 9]%nat 3%nat 2 2 0%nat ex_state =
  (Err OutOfBounds,
   St (ops := exact_ops) (st_mem ex_state)
      (st_trace ex_state ++
       ((fun c => KdeCall c 3%nat 2 2 true) <$> [0; 1]%nat ++ [9%nat]))).
Proof.
  apply (ImageProbability_estimator_failure (ops := exact_ops) ex_kde
           [0; 1; 9]%nat 3%nat 2 2 0%nat ex_state [0; 1]%nat 9%nat OutOfBounds).
  - cbn. lia.
  - intros i c' Hi. destruct i as [|[|i]]; cbn in Hi; [| |discriminate];
      injection Hi as <-; (split; [reflexivity|vm_compute; exact I]).
  - reflexivity.
  - reflexivity.
Defined.

Lemma ImageProbability_idempotent_witness :
  exists s2,
    ImageProbability (ops := exact_ops) ex_kde [0; 1; 2]%nat 3%nat 2 2 0%nat
      (ImageProbability (ops := exact_ops) ex_kde [0; 1; 2]%nat 3%nat 2 2 0%nat
         ex_state).2 = (Ok tt, s2) /\
    st_mem s2 =
      st_mem (ImageProbability (ops := exact_ops) ex_kde [0; 1; 2]%nat 3%nat 2 2
                0%nat ex_state).2.
Proof.
  apply (ImageProbability_idempotent (ops := exact_ops) ex_kde
           [0; 1; 2]%nat 3%nat 2 2 0%nat ex_state).
  vm_compute. reflexivity.
Defined.

(** ** Dimensions *)

Section DimensionFacts.
Variable smooth : list Qc -> list Qc.
Variable policy : empty_policy.




End DimensionFacts.


(** ** The exported densities *)

Lemma string_app_assoc (a b c : string) :
  ((a ++ b) ++ c)%string = (a ++ (b ++ c))%string.
Proof. induction a as [|x a IH]; cbn; [reflexivity|now rewrite IH]. Qed.

Lemma string_app_nil_r (a : string) : (a ++ "")%string = a.
Proof. induction a as [|x a IH]; cbn; [reflexivity|now rewrite IH]. Qed.

Lemma has_char_app c a b :
  has_char c (a ++ b)%string = has_char c a || has_char c b.
Proof.
  induction a as [|x a IH]; cbn; [reflexivity|]. rewrite IH. apply orb_assoc.
Qed.

(** A field without the separator, then the separator: the field is read
    back, and the reading goes on behind it. *)
Lemma fields_app_sep sep a s :
  has_char sep a = false ->
  fields sep (a ++ String sep s)%string =
    (a :: (fields sep s).1, (fields sep s).2).
Proof.
  intros Ha. induction a as [|c a IH].
  - cbn. rewrite Ascii.eqb_refl. now destruct (fields sep s).
  - cbn in Ha. apply orb_false_elim in Ha as [Hc Ha].
    cbn [String.append fields]. rewrite (IH Ha), Hc. reflexivity.
Qed.

Section ExportFacts.
Context {ops : FloatOps}.
Variable show : float -> string.
Variable openable : string -> bool.
Variable KDE :
  list (list byte) -> ptr -> ptr -> Z -> Z -> bool -> result (list float).

Lemma put_vector_text v :
  forall f, put_vector show f v = (f ++ vector_text show v)%string.
Proof.
  unfold put_vector.
  induction v as [|x v IH]; intros f; cbn [foldl vector_text foldr].
  - now rewrite string_app_nil_r.
  - rewrite IH. rewrite !string_app_assoc. reflexivity.
Qed.

Lemma put_rows_text rows :
  forall f, put_rows show f rows = (f ++ rows_text show rows)%string.
Proof.
  unfold put_rows.
  induction rows as [|v rows IH]; intros f; cbn [foldl rows_text foldr].
  - now rewrite string_app_nil_r.
  - rewrite IH, put_vector_text. rewrite !string_app_assoc. reflexivity.
Qed.

Lemma fields_vector_text v :
  Forall (fun x => has_char TAB (show x) = false) v ->
  fields TAB (vector_text show v) = (show <$> v, ""%string).
Proof.
  induction 1 as [|x v Hx Hv IH]; [reflexivity|].
  cbn [vector_text foldr]. rewrite (fields_app_sep _ _ _ Hx).
  fold (vector_text show v). now rewrite IH.
Qed.

Lemma has_newline_vector_text v :
  Forall (fun x => has_char NEWLINE (show x) = false) v ->
  has_char NEWLINE (vector_text show v) = false.
Proof.
  induction 1 as [|x v Hx Hv IH]; [reflexivity|].
  cbn [vector_text foldr]. rewrite has_char_app, Hx. cbn [has_char orb].
  fold (vector_text show v). now rewrite IH.
Qed.

Lemma fields_rows_text rows :
  Forall (Forall (fun x => has_char NEWLINE (show x) = false)) rows ->
  fields NEWLINE (rows_text show rows) = (vector_text show <$> rows, ""%string).
Proof.
  induction 1 as [|v rows Hv Hrows IH]; [reflexivity|].
  cbn [rows_text foldr].
  rewrite (fields_app_sep _ _ _ (has_newline_vector_text _ Hv)).
  fold (rows_text show rows). now rewrite IH.
Qed.

Lemma table_rows_text rows :
  Forall (Forall (fun x => has_char TAB (show x) = false /\
                           has_char NEWLINE (show x) = false)) rows ->
  table (rows_text show rows) = (fun v : list float => show <$> v) <$> rows.
Proof.
  intros Hrows. unfold table. rewrite fields_rows_text.
  2:{ eapply Forall_impl; [|exact Hrows]. intros v Hv.
      eapply Forall_impl; [|exact Hv]. now intros x [_ ?]. }
  cbn [fst]. rewrite <- list_fmap_compose.
  induction Hrows as [|v rows Hv Hrows' IH]; [reflexivity|].
  cbn [fmap list_fmap]. f_equal; [|exact IH].
  cbn. rewrite fields_vector_text; [reflexivity|].
  eapply Forall_impl; [|exact Hv]. now intros x [? _].
Qed.

(** One channel of the export: its two estimator calls. *)
Lemma save_channel_run channels fg bg W H flag i s :
  (ch <- index channels i ;;
   f <- call_kde KDE ch fg W H flag ;;
   b <- call_kde KDE ch bg W H flag ;;
   ret (f, b)) s =
  match channels !! i with
  | None => (Err OutOfBounds, s)
  | Some c =>
      match KDE (mem_u8 (st_mem s)) c fg W H flag with
      | Err e => (Err e, St (st_mem s) (st_trace s ++ [KdeCall c fg W H flag]))
      | Ok f =>
          match KDE (mem_u8 (st_mem s)) c bg W H flag with
          | Err e => (Err e, St (st_mem s)
                                (st_trace s ++ [KdeCall c fg W H flag;
                                                KdeCall c bg W H flag]))
          | Ok b => (Ok (f, b), St (st_mem s)
                                   (st_trace s ++ [KdeCall c fg W H flag;
                                                   KdeCall c bg W H flag]))
          end
      end
  end.
Proof.
  unfold bind, index, lift, call_kde, emit, ret.
  destruct (channels !! i) as [c|]; cbn; [|reflexivity].
  destruct (KDE (mem_u8 (st_mem s)) c fg W H flag); [|reflexivity].
  destruct (KDE (mem_u8 (st_mem s)) c bg W H flag); now rewrite <- app_assoc.
Qed.

Lemma for_each3_Ok {A B} (f : A -> M B) i0 i1 i2 s r s' :
  for_each f [i0; i1; i2] s = (Ok r, s') <->
  exists b0 b1 b2 s1 s2,
    f i0 s = (Ok b0, s1) /\ f i1 s1 = (Ok b1, s2) /\ f i2 s2 = (Ok b2, s') /\
    r = [b0; b1; b2].
Proof.
  cbn [for_each]. unfold bind, ret. split.
  - destruct (f i0 s) as [[b0|e] s1] eqn:R0; [|discriminate].
    destruct (f i1 s1) as [[b1|e] s2] eqn:R1; [|discriminate].
    destruct (f i2 s2) as [[b2|e] s3] eqn:R2; [|discriminate].
    intros [= <- <-]. exists b0, b1, b2, s1, s2. auto.
  - intros (b0 & b1 & b2 & s1 & s2 & -> & -> & -> & ->). reflexivity.
Qed.

(** The successful runs of the export, in closed form. *)
Lemma SaveForegroundBackgroundDensities_run channels fg bg W H flag s rows s' :
  SaveForegroundBackgroundDensities KDE channels fg bg W H flag s = (Ok rows, s') <->
  exists c0 c1 c2 f0 b0 f1 b1 f2 b2,
    channels !! 0%nat = Some c0 /\ channels !! 1%nat = Some c1 /\
    channels !! 2%nat = Some c2 /\
    KDE (mem_u8 (st_mem s)) c0 fg W H flag = Ok f0 /\
    KDE (mem_u8 (st_mem s)) c0 bg W H flag = Ok b0 /\
    KDE (mem_u8 (st_mem s)) c1 fg W H flag = Ok f1 /\
    KDE (mem_u8 (st_mem s)) c1 bg W H flag = Ok b1 /\
    KDE (mem_u8 (st_mem s)) c2 fg W H flag = Ok f2 /\
    KDE (mem_u8 (st_mem s)) c2 bg W H flag = Ok b2 /\
    rows = [f0; b0; f1; b1; f2; b2] /\
    s' = St (st_mem s)
            (st_trace s ++
             [KdeCall c0 fg W H flag; KdeCall c0 bg W H flag;
              KdeCall c1 fg W H flag; KdeCall c1 bg W H flag;
              KdeCall c2 fg W H flag; KdeCall c2 bg W H flag]).
Proof.
  unfold SaveForegroundBackgroundDensities.
  set (body := fun i : nat => _).
  assert (Hbody : forall i s, body i s = _) by (intros; apply save_channel_run).
  split.
  - unfold bind at 1.
    destruct (for_each body [0; 1; 2]%nat s) as [[probs|e] s1] eqn:E; [|discriminate].
    unfold ret. intros [= <- <-].
    apply for_each3_Ok in E as (p0 & p1 & p2 & t1 & t2 & R0 & R1 & R2 & ->).
    rewrite Hbody in R0, R1, R2.
    destruct (channels !! 0%nat) as [c0|]; [|discriminate].
    destruct (KDE (mem_u8 (st_mem s)) c0 fg W H flag) as [f0|] eqn:F0; [|discriminate].
    destruct (KDE (mem_u8 (st_mem s)) c0 bg W H flag) as [b0|] eqn:B0; [|discriminate].
    injection R0 as <- <-. cbn [st_mem st_trace] in R1.
    destruct (channels !! 1%nat) as [c1|]; [|discriminate].
    destruct (KDE (mem_u8 (st_mem s)) c1 fg W H flag) as [f1|] eqn:F1; [|discriminate].
    destruct (KDE (mem_u8 (st_mem s)) c1 bg W H flag) as [b1|] eqn:B1; [|discriminate].
    injection R1 as <- <-. cbn [st_mem st_trace] in R2.
    destruct (channels !! 2%nat) as [c2|]; [|discriminate].
    destruct (KDE (mem_u8 (st_mem s)) c2 fg W H flag) as [f2|] eqn:F2; [|discriminate].
    destruct (KDE (mem_u8 (st_mem s)) c2 bg W H flag) as [b2|] eqn:B2; [|discriminate].
    injection R2 as <- <-.
    exists c0, c1, c2, f0, b0, f1, b1, f2, b2.
    repeat (split; [reflexivity|]). now rewrite <- !app_assoc.
  - intros (c0 & c1 & c2 & f0 & b0 & f1 & b1 & f2 & b2 &
            E0 & E1 & E2 & F0 & B0 & F1 & B1 & F2 & B2 & -> & ->).
    rewrite (bind_Ok _ _ s [(f0, b0); (f1, b1); (f2, b2)]
               (St (st_mem s)
                   (st_trace s ++
                    [KdeCall c0 fg W H flag; KdeCall c0 bg W H flag;
                     KdeCall c1 fg W H flag; KdeCall c1 bg W H flag;
                     KdeCall c2 fg W H flag; KdeCall c2 bg W H flag])));
      [reflexivity|].
    apply for_each3_Ok. eexists (f0, b0), (f1, b1), (f2, b2), _, _.
    rewrite !Hbody. rewrite E0, F0, B0. split; [reflexivity|].
    cbn [st_mem st_trace]. rewrite E1, F1, B1. split; [reflexivity|].
    cbn [st_mem st_trace]. rewrite E2, F2, B2. split; [|reflexivity].
    now rewrite <- !app_assoc.
Qed.

(** X7: the export succeeds exactly when [channels] has its three pointers
    and all six estimates succeed; it then has called the estimator six times,
    channel by channel, for the foreground mask and then for the background
    mask, each time with the caller's [W], [H] and flag; its rows are the six
    densities in this order, and it has changed no memory. *)
Theorem SaveForegroundBackgroundDensities_six_calls
    channels fg bg W H flag s rows s' :
  SaveForegroundBackgroundDensities KDE channels fg bg W H flag s = (Ok rows, s') <->
  exists c0 c1 c2 f0 b0 f1 b1 f2 b2,
    channels !! 0%nat = Some c0 /\ channels !! 1%nat = Some c1 /\
    channels !! 2%nat = Some c2 /\
    KDE (mem_u8 (st_mem s)) c0 fg W H flag = Ok f0 /\
    KDE (mem_u8 (st_mem s)) c0 bg W H flag = Ok b0 /\
    KDE (mem_u8 (st_mem s)) c1 fg W H flag = Ok f1 /\
    KDE (mem_u8 (st_mem s)) c1 bg W H flag = Ok b1 /\
    KDE (mem_u8 (st_mem s)) c2 fg W H flag = Ok f2 /\
    KDE (mem_u8 (st_mem s)) c2 bg W H flag = Ok b2 /\
    rows = [f0; b0; f1; b1; f2; b2] /\
    s' = St (st_mem s)
            (st_trace s ++
             [KdeCall c0 fg W H flag; KdeCall c0 bg W H flag;
              KdeCall c1 fg W H flag; KdeCall c1 bg W H flag;
              KdeCall c2 fg W H flag; KdeCall c2 bg W H flag]).
Proof. apply SaveForegroundBackgroundDensities_run. Qed.

(** X8: the export and the probability map agree on the foreground.  When
    the export is run with the flag [true] and succeeds, and
    [ImageProbability] succeeds on the same [uint8_t] memory with the
    foreground mask, then the rows 0, 2 and 4 of the export are the three
    densities whose product [ImageProbability] stores at every pixel. *)
Theorem exported_foreground_rows_make_the_map
    channels fg bg W H outimg s t rows s1 :
  SaveForegroundBackgroundDensities KDE channels fg bg W H true s = (Ok rows, s1) ->
  mem_u8 (st_mem t) = mem_u8 (st_mem s) ->
  is_Ok (ImageProbability KDE channels fg W H outimg t).1 ->
  exists d0 d1 d2,
    rows !! 0%nat = Some d0 /\ rows !! 2%nat = Some d1 /\ rows !! 4%nat = Some d2 /\
    forall blk' (k : nat),
      mem_f64 (st_mem (ImageProbability KDE channels fg W H outimg t).2) !! outimg
        = Some blk' ->
      Z.of_nat k < W * H ->
      blk' !! k =
        pixel_value (mem_u8 (st_mem t)) [d0; d1; d2] channels (Z.of_nat k).
Proof.
  intros Hsave Hmem Hok.
  apply SaveForegroundBackgroundDensities_run in Hsave
    as (c0 & c1 & c2 & f0 & b0 & f1 & b1 & f2 & b2 &
        E0 & E1 & E2 & F0 & _ & F1 & _ & F2 & _ & -> & _).
  destruct (ImageProbability_any_run KDE channels fg W H outimg t)
    as (cs & m & _ & _ & _ & _ & _ & _ & Hsucc).
  cbn zeta in Hsucc.
  destruct (Hsucc Hok)
    as (c0' & c1' & c2' & d0 & d1 & d2 & _ & E0' & E1' & E2' & K0 & K1 & K2 & _ & Hm & Hval).
  rewrite E0 in E0'. rewrite E1 in E1'. rewrite E2 in E2'.
  injection E0' as <-. injection E1' as <-. injection E2' as <-.
  rewrite Hmem in K0, K1, K2.
  rewrite F0 in K0. rewrite F1 in K1. rewrite F2 in K2.
  injection K0 as <-. injection K1 as <-. injection K2 as <-.
  exists f0, f1, f2. repeat (split; [reflexivity|]).
  intros blk' k Hblk' Hk. apply Hval; [assumption|lia].
Qed.

(** X9: what [SaveVector] writes can be read back.  For a vector none of
    whose entries prints with a tab, the call changes no other file; if the
    file can be opened it then holds a text whose tab-terminated fields are
    the printed entries of the vector, in order, with nothing after the last
    tab; if it cannot be opened, no file has changed (and the call reports
    nothing). *)
Theorem SaveVector_round_trip filename v fs :
  Forall (fun x => has_char TAB (show x) = false) v ->
  (forall n, n <> filename ->
     SaveVector show openable filename v fs n = fs n) /\
  (openable filename = true ->
     exists text, SaveVector show openable filename v fs filename = Some text /\
                  fields TAB text = (show <$> v, ""%string)) /\
  (openable filename = false -> SaveVector show openable filename v fs = fs).
Proof.
  intros Htab. unfold SaveVector. rewrite put_vector_text.
  cbn [String.append]. cbn zeta.
  destruct (openable filename); (split; [|split]); try discriminate; try reflexivity.
  - intros n Hn. unfold write_file. now rewrite (proj2 (String.eqb_neq n filename) Hn).
  - intros _. exists (vector_text show v). split.
    + unfold write_file. now rewrite String.eqb_refl.
    + now apply fields_vector_text.
Qed.

(** X10: the densities file can be read back.  When the six estimates
    succeed, no entry prints with a tab or a newline, and the file can be
    opened, the export succeeds, changes no memory and no other file, and
    leaves under [filename] a text of six lines that holds, split at the
    tabs, the printed entries of the foreground and the background density of
    channel 0, then of channel 1, then of channel 2. *)
Theorem densities_file_round_trip
    channels fg bg W H flag filename s fs c0 c1 c2 f0 b0 f1 b1 f2 b2 :
  channels !! 0%nat = Some c0 -> channels !! 1%nat = Some c1 ->
  channels !! 2%nat = Some c2 ->
  KDE (mem_u8 (st_mem s)) c0 fg W H flag = Ok f0 ->
  KDE (mem_u8 (st_mem s)) c0 bg W H flag = Ok b0 ->
  KDE (mem_u8 (st_mem s)) c1 fg W H flag = Ok f1 ->
  KDE (mem_u8 (st_mem s)) c1 bg W H flag = Ok b1 ->
  KDE (mem_u8 (st_mem s)) c2 fg W H flag = Ok f2 ->
  KDE (mem_u8 (st_mem s)) c2 bg W H flag = Ok b2 ->
  Forall (Forall (fun x => has_char TAB (show x) = false /\
                           has_char NEWLINE (show x) = false))
         [f0; b0; f1; b1; f2; b2] ->
  openable filename = true ->
  exists text s' fs',
    SaveForegroundBackgroundDensities_file show openable KDE channels fg bg W H
      flag filename s fs = (Ok tt, s', fs') /\
    st_mem s' = st_mem s /\
    fs' filename = Some text /\
    (forall n, n <> filename -> fs' n = fs n) /\
    table text =
      [show <$> f0; show <$> b0; show <$> f1; show <$> b1; show <$> f2; show <$> b2].
Proof.
  intros E0 E1 E2 F0 B0 F1 B1 F2 B2 Hchars Hopen.
  assert (Hrun : SaveForegroundBackgroundDensities KDE channels fg bg W H flag s =
                 (Ok [f0; b0; f1; b1; f2; b2],
                  St (st_mem s)
                     (st_trace s ++
                      [KdeCall c0 fg W H flag; KdeCall c0 bg W H flag;
                       KdeCall c1 fg W H flag; KdeCall c1 bg W H flag;
                       KdeCall c2 fg W H flag; KdeCall c2 bg W H flag]))).
  { apply SaveForegroundBackgroundDensities_run.
    exists c0, c1, c2, f0, b0, f1, b1, f2, b2. repeat (split; [assumption|]). auto. }
  unfold SaveForegroundBackgroundDensities_file.
  rewrite Hrun, put_rows_text, Hopen. cbn [String.append]. cbn zeta.
  eexists _, _, _. split; [reflexivity|]. split; [reflexivity|]. split; [|split].
  - unfold write_file. now rewrite String.eqb_refl.
  - intros n Hn. unfold write_file. now rewrite (proj2 (String.eqb_neq n filename) Hn).
  - now rewrite (table_rows_text _ Hchars).
Qed.

Lemma for_each3_Err {A B} (f : A -> M B) i0 i1 i2 s e s' :
  for_each f [i0; i1; i2] s = (Err e, s') ->
  f i0 s = (Err e, s') \/
  exists b0 s1, f i0 s = (Ok b0, s1) /\
    (f i1 s1 = (Err e, s') \/
     exists b1 s2, f i1 s1 = (Ok b1, s2) /\ f i2 s2 = (Err e, s')).
Proof.
  cbn [for_each]. unfold bind, ret.
  destruct (f i0 s) as [[b0|e0] s1] eqn:R0.
  2:{ intros [= <- <-]. now left. }
  destruct (f i1 s1) as [[b1|e1] s2] eqn:R1.
  2:{ intros [= <- <-]. right. exists b0, s1. split; [reflexivity|]. now left. }
  destruct (f i2 s2) as [[b2|e2] s3] eqn:R2; [discriminate|].
  intros [= <- <-]. right. exists b0, s1. split; [reflexivity|].
  right. exists b1, s2. auto.
Qed.

(** One channel of the export changes no memory, and fails only for a
    missing channel pointer or with the error of one of its two estimates. *)
Lemma save_channel_cases channels fg bg W H flag i s r s' :
  (ch <- index channels i ;;
   f <- call_kde KDE ch fg W H flag ;;
   b <- call_kde KDE ch bg W H flag ;;
   ret (f, b)) s = (r, s') ->
  st_mem s' = st_mem s /\
  forall e, r = Err e ->
    e = OutOfBounds \/
    exists c mask, channels !! i = Some c /\ (mask = fg \/ mask = bg) /\
                   KDE (mem_u8 (st_mem s)) c mask W H flag = Err e.
Proof.
  rewrite save_channel_run.
  destruct (channels !! i) as [c|]; [|intros [= <- <-]; split; [reflexivity|]].
  2:{ intros e [= <-]. now left. }
  destruct (KDE (mem_u8 (st_mem s)) c fg W H flag) as [f|ef] eqn:Ef.
  2:{ intros [= <- <-]. split; [reflexivity|]. intros e [= <-]. right.
      exists c, fg. auto. }
  destruct (KDE (mem_u8 (st_mem s)) c bg W H flag) as [b|eb] eqn:Eb;
    intros [= <- <-]; (split; [reflexivity|]); intros e; [discriminate|].
  intros [= <-]. right. exists c, bg. auto.
Qed.

(** X17: a failed export touches no file.  The stream is opened only after
    the six estimator calls, so when the export fails, no file has been
    created, truncated or written, the memory is unchanged, and the error is
    an access outside the array [channels] or the error of an estimate of one
    of the three channels against the foreground or the background mask. *)
Theorem failed_export_touches_no_file channels fg bg W H flag filename s fs e :
  (SaveForegroundBackgroundDensities_file show openable KDE channels fg bg W H
     flag filename s fs).1.1 = Err e ->
  (SaveForegroundBackgroundDensities_file show openable KDE channels fg bg W H
     flag filename s fs).2 = fs /\
  st_mem (SaveForegroundBackgroundDensities_file show openable KDE channels fg bg
            W H flag filename s fs).1.2 = st_mem s /\
  (e = OutOfBounds \/
   exists i c mask, (i < 3)%nat /\ channels !! i = Some c /\
                    (mask = fg \/ mask = bg) /\
                    KDE (mem_u8 (st_mem s)) c mask W H flag = Err e).
Proof.
  unfold SaveForegroundBackgroundDensities_file, SaveForegroundBackgroundDensities.
  set (body := fun i : nat => _).
  destruct (for_each body [0; 1; 2]%nat s) as [[probs|e'] s1] eqn:Erun.
  { rewrite (bind_Ok _ _ _ _ _ Erun). unfold ret. cbn. discriminate. }
  rewrite (bind_Err _ _ _ _ _ Erun). cbn [fst snd]. intros [= ->].
  split; [reflexivity|].
  apply for_each3_Err in Erun
    as [R0|(b0 & s0 & R0 & [R1|(b1 & s2 & R1 & R2)])].
  - destruct (save_channel_cases _ _ _ _ _ _ _ _ _ _ R0) as [Hm He].
    split; [exact Hm|].
    destruct (He e eq_refl) as [->|(c & mask & Hc & Hmask & Hk)]; [now left|].
    right. exists 0%nat, c, mask. repeat split; auto.
  - destruct (save_channel_cases _ _ _ _ _ _ _ _ _ _ R0) as [Hm0 _].
    destruct (save_channel_cases _ _ _ _ _ _ _ _ _ _ R1) as [Hm He].
    split; [congruence|].
    destruct (He e eq_refl) as [->|(c & mask & Hc & Hmask & Hk)]; [now left|].
    right. exists 1%nat, c, mask. rewrite Hm0 in Hk. repeat split; auto.
  - destruct (save_channel_cases _ _ _ _ _ _ _ _ _ _ R0) as [Hm0 _].
    destruct (save_channel_cases _ _ _ _ _ _ _ _ _ _ R1) as [Hm1 _].
    destruct (save_channel_cases _ _ _ _ _ _ _ _ _ _ R2) as [Hm He].
    split; [congruence|].
    destruct (He e eq_refl) as [->|(c & mask & Hc & Hmask & Hk)]; [now left|].
    right. exists 2%nat, c, mask. rewrite Hm1, Hm0 in Hk. repeat split; auto.
Qed.

End ExportFacts.

(** *** On example inputs *)

Lemma exported_foreground_rows_make_the_map_witness :
  exists d0 d1 d2,
    [ex_density 0; ex_density 0; ex_density 1; ex_density 1;
     ex_density 2; ex_density 2] !! 0%nat = Some d0 /\
    [ex_density 0; ex_density 0; ex_density 1; ex_density 1;
     ex_density 2; ex_density 2] !! 2%nat = Some d1 /\
    [ex_density 0; ex_density 0; ex_density 1; ex_density 1;
     ex_density 2; ex_density 2] !! 4%nat = Some d2 /\
    forall blk' (k : nat),
      mem_f64 (st_mem (ImageProbability (ops := exact_ops) ex_kde [0; 1; 2]%nat
                         3%nat 2 2 0%nat ex_state).2) !! 0%nat = Some blk' ->
      Z.of_nat k < 2 * 2 ->
      blk' !! k =
        pixel_value (ops := exact_ops) (mem_u8 (st_mem ex_state)) [d0; d1; d2]
          [0; 1; 2]%nat (Z.of_nat k).
Proof.
  apply (exported_foreground_rows_make_the_map (ops := exact_ops) ex_kde
           [0; 1; 2]%nat 3%nat 3%nat 2 2 0%nat ex_state ex_state
           [ex_density 0; ex_density 0; ex_density 1; ex_density 1;
            ex_density 2; ex_density 2]
           (SaveForegroundBackgroundDensities (ops := exact_ops) ex_kde
              [0; 1; 2]%nat 3%nat 3%nat 2 2 true ex_state).2).
  - vm_compute. reflexivity.
  - reflexivity.
  - vm_compute. exact I.
Defined.

Lemma failed_export_touches_no_file_witness :
  (SaveForegroundBackgroundDensities_file (ops := exact_ops) show_Qc (fun _ => true)
     ex_kde [0; 1; 9]%nat 3%nat 3%nat 2 2 true "densities_medfilter.txt"
     ex_state (fun _ => None)).2 = (fun _ => None) /\
  st_mem (SaveForegroundBackgroundDensities_file (ops := exact_ops) show_Qc
            (fun _ => true) ex_kde [0; 1; 9]%nat 3%nat 3%nat 2 2 true
            "densities_medfilter.txt" ex_state (fun _ => None)).1.2 =
    st_mem ex_state /\
  (OutOfBounds = OutOfBounds \/
   exists i c mask, (i < 3)%nat /\ [0; 1; 9]%nat !! i = Some c /\
                    (mask = 3%nat \/ mask = 3%nat) /\
                    ex_kde (mem_u8 (st_mem ex_state)) c mask 2 2 true =
                      Err OutOfBounds).
Proof.
  apply (failed_export_touches_no_file (ops := exact_ops) show_Qc (fun _ => true)
           ex_kde [0; 1; 9]%nat 3%nat 3%nat 2 2 true "densities_medfilter.txt"
           ex_state (fun _ => None) OutOfBounds).
  vm_compute. reflexivity.
Defined.

Lemma SaveVector_round_trip_witness :
  (forall n, n <> "density.txt"%string ->
     SaveVector (ops := exact_ops) show_Qc (fun _ => true) "density.txt"
       (ex_density 0) (fun _ => None) n = None) /\
  (true = true ->
     exists text,
       SaveVector (ops := exact_ops) show_Qc (fun _ => true) "density.txt"
         (ex_density 0) (fun _ => None) "density.txt"%string = Some text /\
       fields TAB text = (show_Qc <$> ex_density 0, ""%string)) /\
  (true = false ->
     SaveVector (ops := exact_ops) show_Qc (fun _ => true) "density.txt"
       (ex_density 0) (fun _ => None) = fun _ => None).
Proof.
  apply (SaveVector_round_trip (ops := exact_ops) show_Qc (fun _ => true)
           "density.txt" (ex_density 0) (fun _ => None)).
  refine (bool_decide_unpack _ _). vm_compute. exact I.
Defined.

Lemma densities_file_round_trip_witness :
  exists text s' fs',
    SaveForegroundBackgroundDensities_file (ops := exact_ops) show_Qc (fun _ => true)
      ex_kde [0; 1; 2]%nat 3%nat 3%nat 2 2 true "densities_medfilter.txt"
      ex_state (fun _ => None) = (Ok tt, s', fs') /\
    st_mem s' = st_mem ex_state /\
    fs' "densities_medfilter.txt"%string = Some text /\
    (forall n, n <> "densities_medfilter.txt"%string -> fs' n = None) /\
    table text =
      [show_Qc <$> ex_density 0; show_Qc <$> ex_density 0;
       show_Qc <$> ex_density 1; show_Qc <$> ex_density 1;
       show_Qc <$> ex_density 2; show_Qc <$> ex_density 2].
Proof.
  apply (densities_file_round_trip (ops := exact_ops) show_Qc (fun _ => true) ex_kde
           [0; 1; 2]%nat 3%nat 3%nat 2 2 true "densities_medfilter.txt"
           ex_state (fun _ => None) 0%nat 1%nat 2%nat);
    try reflexivity; try (apply ex_kde_Ok; lia).
  refine (bool_decide_unpack _ _). vm_compute. exact I.
Defined.

(** ** The display *)

Lemma WaitForEsc_app pre rest :
  27 ∉ pre -> WaitForEsc (pre ++ 27 :: rest) = (Returned tt, rest).
Proof.
  induction pre as [|k pre IH]; intros Hpre; cbn [app WaitForEsc].
  - now rewrite decide_True.
  - apply not_elem_of_cons in Hpre as [Hk Hpre].
    rewrite decide_False by congruence. now apply IH.
Qed.

Lemma WaitForEsc_no_esc keys : 27 ∉ keys -> WaitForEsc keys = (Blocked, []).
Proof.
  induction keys as [|k keys IH]; intros Hkeys; cbn [WaitForEsc]; [reflexivity|].
  apply not_elem_of_cons in Hkeys as [Hk Hkeys].
  rewrite decide_False by congruence. now apply IH.
Qed.

Lemma WaitForEsc_Returned_inv keys rest :
  WaitForEsc keys = (Returned tt, rest) ->
  exists pre, keys = pre ++ 27 :: rest /\ 27 ∉ pre.
Proof.
  intros Hrun. destruct (decide (27 ∈ keys)) as [Hin|Hnin].
  - apply list_elem_of_split_l in Hin as (pre & rest' & -> & Hpre).
    rewrite (WaitForEsc_app _ _ Hpre) in Hrun. injection Hrun as <-. eauto.
  - rewrite (WaitForEsc_no_esc _ Hnin) in Hrun. discriminate.
Qed.

(** X11: [WaitForEsc] returns exactly when the key 27 (Esc) is among the keys
    to come; it then has consumed the keys up to the first Esc and that Esc,
    and left the later keys.  Without an Esc it consumes every key and never
    returns. *)
Theorem WaitForEsc_first_esc keys :
  (forall rest,
     WaitForEsc keys = (Returned tt, rest) <->
     exists pre, keys = pre ++ 27 :: rest /\ 27 ∉ pre) /\
  (WaitForEsc keys = (Blocked, []) <-> 27 ∉ keys).
Proof.
  split; [intros rest|]; split.
  - apply WaitForEsc_Returned_inv.
  - intros (pre & -> & Hpre). now apply WaitForEsc_app.
  - intros Hrun Hin.
    apply list_elem_of_split_l in Hin as (pre & rest' & -> & Hpre).
    rewrite (WaitForEsc_app _ _ Hpre) in Hrun. discriminate.
  - apply WaitForEsc_no_esc.
Qed.

Section DisplayFacts.
Variables F D : Type.
Variables CV_WINDOW_NORMAL CV_WINDOW_KEEPRATIO CV_GUI_EXPANDED : Z.
Variable T : Type.
Variable less : T -> T -> bool.
Variable to_float : T -> F.
Variable jet_scaled : list T -> F -> F -> D.

Lemma ShowImage_events (img : D) window_name wait (g : gui F D) :
  gui_events (ShowImage F D CV_WINDOW_NORMAL CV_WINDOW_KEEPRATIO CV_GUI_EXPANDED
                img window_name wait g).2 =
    gui_events g ++
    [NamedWindow window_name
       (Z.lor (Z.lor CV_WINDOW_NORMAL CV_WINDOW_KEEPRATIO) CV_GUI_EXPANDED);
     Imshow window_name img].
Proof.
  unfold ShowImage. cbn zeta. destruct wait; [|reflexivity].
  cbn [gui_keys]. now destruct (WaitForEsc (gui_keys g)).
Qed.

Lemma ShowImage_keys (img : D) window_name wait (g : gui F D) :
  let run := ShowImage F D CV_WINDOW_NORMAL CV_WINDOW_KEEPRATIO CV_GUI_EXPANDED
               img window_name wait g in
  (run.1, gui_keys run.2) =
    if wait then WaitForEsc (gui_keys g) else (Returned tt, gui_keys g).
Proof.
  unfold ShowImage. cbn zeta. destruct wait; [|reflexivity].
  cbn [gui_keys]. now destruct (WaitForEsc (gui_keys g)).
Qed.

Lemma ImageSC_nonempty x rest window_name wait (g : gui F D) :
  ImageSC F D CV_WINDOW_NORMAL CV_WINDOW_KEEPRATIO CV_GUI_EXPANDED T less to_float
    jet_scaled (x :: rest) window_name wait g =
  let lo := foldl (fun m y => if less y m then y else m) x rest in
  let hi := foldl (fun m y => if less m y then y else m) x rest in
  ShowImage F D CV_WINDOW_NORMAL CV_WINDOW_KEEPRATIO CV_GUI_EXPANDED
    (jet_scaled (x :: rest) (to_float lo) (to_float hi)) window_name wait
    (Gui (gui_events g ++ [LogInfo (to_float lo) (to_float hi)]) (gui_keys g)).
Proof. reflexivity. Qed.

(** X13: how [ImageSC] ends.  On an image without pixels it dereferences an
    end iterator: the behaviour is undefined and nothing has been logged or
    shown.  On any other image it returns at once when [wait_for_esc] is
    false, leaving the keys to come; when [wait_for_esc] is true it returns
    after the first Esc, having consumed the keys up to it, and never returns
    when no Esc comes. *)
Theorem ImageSC_outcome img window_name wait (g : gui F D) :
  let run := ImageSC F D CV_WINDOW_NORMAL CV_WINDOW_KEEPRATIO CV_GUI_EXPANDED T
               less to_float jet_scaled img window_name wait g in
  (img = [] -> run = (Failed OutOfBounds, g)) /\
  (img <> [] -> wait = false ->
     run.1 = Returned tt /\ gui_keys run.2 = gui_keys g) /\
  (img <> [] -> wait = true -> 27 ∉ gui_keys g ->
     run.1 = Blocked /\ gui_keys run.2 = []) /\
  (img <> [] -> wait = true ->
     forall pre rest, gui_keys g = pre ++ 27 :: rest -> 27 ∉ pre ->
       run.1 = Returned tt /\ gui_keys run.2 = rest).
Proof.
  cbn zeta. destruct img as [|x rest].
  { split; [reflexivity|]. repeat split; congruence. }
  rewrite ImageSC_nonempty. cbn zeta.
  set (g1 := Gui _ _). set (img := jet_scaled _ _ _).
  pose proof (ShowImage_keys img window_name wait g1) as Hkeys. cbn zeta in Hkeys.
  cbn [g1 gui_keys] in Hkeys.
  split; [discriminate|]. split; [|split].
  - intros _ ->. now apply pair_equal_spec in Hkeys.
  - intros _ -> Hnin. rewrite (WaitForEsc_no_esc _ Hnin) in Hkeys.
    now apply pair_equal_spec in Hkeys.
  - intros _ -> pre rest' Hg Hpre. rewrite Hg, (WaitForEsc_app _ _ Hpre) in Hkeys.
    now apply pair_equal_spec in Hkeys.
Qed.

Lemma foldl_replicate_same (f : T -> T -> T) x n :
  f x x = x -> foldl f x (replicate n x) = x.
Proof.
  intros Hf. induction n as [|n IH]; cbn [replicate foldl]; [reflexivity|].
  now rewrite Hf.
Qed.

(** X18: an image of one colour has no range to scale by.  When all the
    pixels of a non-empty image have the same value, whatever [operator<]
    is, [ImageSC] logs this value as the minimum and as the maximum, and the
    image it shows is scaled with [Amin = Amax], that is with the divisor
    [Amax - Amin] of a value minus itself. *)
Theorem ImageSC_constant_image n x window_name wait (g : gui F D) :
  gui_events (ImageSC F D CV_WINDOW_NORMAL CV_WINDOW_KEEPRATIO CV_GUI_EXPANDED
                T less to_float jet_scaled (replicate (S n) x) window_name wait
                g).2 =
    gui_events g ++
    [LogInfo (to_float x) (to_float x);
     NamedWindow window_name
       (Z.lor (Z.lor CV_WINDOW_NORMAL CV_WINDOW_KEEPRATIO) CV_GUI_EXPANDED);
     Imshow window_name
       (jet_scaled (replicate (S n) x) (to_float x) (to_float x))].
Proof.
  cbn [replicate]. rewrite ImageSC_nonempty. cbn zeta.
  rewrite !foldl_replicate_same by (now destruct (less x x)).
  rewrite ShowImage_events. cbn [gui_events]. now rewrite <- app_assoc.
Qed.

Hypothesis less_irrefl : forall x, less x x = false.
Hypothesis less_trans :
  forall x y z, less x y = true -> less y z = true -> less x z = true.

Lemma min_fold_spec rest :
  forall x,
    let m := foldl (fun m y => if less y m then y else m) x rest in
    m ∈ x :: rest /\ forall y, y ∈ x :: rest -> less y m = false.
Proof.
  induction rest as [|z rest IH] using rev_ind; intros x; cbn zeta.
  - cbn. split; [apply list_elem_of_here|].
    intros y Hy. apply list_elem_of_singleton in Hy as ->. apply less_irrefl.
  - rewrite foldl_app. cbn [foldl]. destruct (IH x) as [Hin Hlow].
    set (m := foldl _ x rest) in *.
    destruct (less z m) eqn:Hz.
    + split.
      * rewrite app_comm_cons. apply elem_of_app. right. apply list_elem_of_here.
      * intros y Hy. rewrite app_comm_cons in Hy.
        apply elem_of_app in Hy as [Hy|Hy].
        -- destruct (less y z) eqn:Hyz; [|reflexivity].
           pose proof (less_trans _ _ _ Hyz Hz) as Hym.
           rewrite (Hlow y Hy) in Hym. discriminate.
        -- apply list_elem_of_singleton in Hy as ->. apply less_irrefl.
    + split.
      * rewrite app_comm_cons. apply elem_of_app. now left.
      * intros y Hy. rewrite app_comm_cons in Hy.
        apply elem_of_app in Hy as [Hy|Hy]; [now apply Hlow|].
        now apply list_elem_of_singleton in Hy as ->.
Qed.

Lemma max_fold_spec rest :
  forall x,
    let m := foldl (fun m y => if less m y then y else m) x rest in
    m ∈ x :: rest /\ forall y, y ∈ x :: rest -> less m y = false.
Proof.
  induction rest as [|z rest IH] using rev_ind; intros x; cbn zeta.
  - cbn. split; [apply list_elem_of_here|].
    intros y Hy. apply list_elem_of_singleton in Hy as ->. apply less_irrefl.
  - rewrite foldl_app. cbn [foldl]. destruct (IH x) as [Hin Hup].
    set (m := foldl _ x rest) in *.
    destruct (less m z) eqn:Hz.
    + split.
      * rewrite app_comm_cons. apply elem_of_app. right. apply list_elem_of_here.
      * intros y Hy. rewrite app_comm_cons in Hy.
        apply elem_of_app in Hy as [Hy|Hy].
        -- destruct (less z y) eqn:Hzy; [|reflexivity].
           pose proof (less_trans _ _ _ Hz Hzy) as Hmy.
           rewrite (Hup y Hy) in Hmy. discriminate.
        -- apply list_elem_of_singleton in Hy as ->. apply less_irrefl.
    + split.
      * rewrite app_comm_cons. apply elem_of_app. now left.
      * intros y Hy. rewrite app_comm_cons in Hy.
        apply elem_of_app in Hy as [Hy|Hy]; [now apply Hup|].
        now apply list_elem_of_singleton in Hy as ->.
Qed.

(** X12: what [ImageSC] logs and shows.  With an [operator<] that is
    irreflexive and transitive, and an image of at least one pixel, the call
    logs, converted to [float], two pixel values of the image, no pixel of
    the image being smaller than the first ([Amin]) or larger than the second
    ([Amax]), then opens the window and shows in it the image scaled by these
    two values; it logs and shows nothing else, whether it waits for Esc or
    not. *)
Theorem ImageSC_logged_range img window_name wait (g : gui F D) :
  img <> [] ->
  exists lo hi,
    lo ∈ img /\ hi ∈ img /\
    (forall y, y ∈ img -> less y lo = false /\ less hi y = false) /\
    gui_events (ImageSC F D CV_WINDOW_NORMAL CV_WINDOW_KEEPRATIO CV_GUI_EXPANDED
                  T less to_float jet_scaled img window_name wait g).2 =
      gui_events g ++
      [LogInfo (to_float lo) (to_float hi);
       NamedWindow window_name
         (Z.lor (Z.lor CV_WINDOW_NORMAL CV_WINDOW_KEEPRATIO) CV_GUI_EXPANDED);
       Imshow window_name (jet_scaled img (to_float lo) (to_float hi))].
Proof.
  intros Hne. destruct img as [|x rest]; [congruence|].
  destruct (min_fold_spec rest x) as [Hlo Hlow].
  destruct (max_fold_spec rest x) as [Hhi Hup]. cbn zeta in *.
  eexists _, _. split; [exact Hlo|]. split; [exact Hhi|]. split; [auto|].
  rewrite ImageSC_nonempty. cbn zeta. rewrite ShowImage_events.
  cbn [gui_events]. now rewrite <- app_assoc.
Qed.

End DisplayFacts.

Lemma ImageSC_logged_range_witness :
  exists lo hi,
    lo ∈ [3; 1; 2] /\ hi ∈ [3; 1; 2] /\
    (forall y, y ∈ [3; 1; 2] -> (y <? lo) = false /\ (hi <? y) = false) /\
    gui_events (ImageSC Z (list Z) 0 0 0 Z Z.ltb id
                  (fun img lo hi => (fun x => (x - lo) * 255 / (hi - lo)) <$> img)
                  [3; 1; 2] "fg_prob" true (Gui [] [13; 27; 32])).2 =
      [] ++
      [LogInfo lo hi;
       NamedWindow "fg_prob" (Z.lor (Z.lor 0 0) 0);
       Imshow "fg_prob" ((fun x => (x - lo) * 255 / (hi - lo)) <$> [3; 1; 2])].
Proof.
  apply (ImageSC_logged_range Z (list Z) 0 0 0 Z Z.ltb id
           (fun img lo hi => (fun x => (x - lo) * 255 / (hi - lo)) <$> img)).
  - apply Z.ltb_irrefl.
  - intros x y z Hxy Hyz. apply Z.ltb_lt in Hxy, Hyz. apply Z.ltb_lt. lia.
  - discriminate.
Defined.

(** ** [main], from the loaded images to its return *)

Lemma foldl_choice_elem {A} (f : A -> A -> A) :
  (forall m y, f m y = m \/ f m y = y) ->
  forall rest x, foldl f x rest ∈ x :: rest.
Proof.
  intros Hf. induction rest as [|z rest IH]; intros x; cbn [foldl].
  - apply list_elem_of_here.
  - specialize (IH (f x z)). apply elem_of_cons in IH as [->|IH].
    + destruct (Hf x z) as [->| ->].
      * apply list_elem_of_here.
      * apply list_elem_of_further, list_elem_of_here.
    + now do 2 apply list_elem_of_further.
Qed.

Section MainFacts.
Context {ops : FloatOps}.
Variable KDE :
  list (list byte) -> ptr -> ptr -> Z -> Z -> bool -> result (list float).
Variable D : Type.
Variables CV_WINDOW_NORMAL CV_WINDOW_KEEPRATIO CV_GUI_EXPANDED : Z.
Variable dless : double -> double -> bool.
Variable double_to_float : double -> float.
Variable jet_scaled : list double -> float -> float -> D.

(** [main] on images of one size, with planes and an output buffer of [W*H]
    entries: the final state in closed form. *)
Lemma main_from_loaded_run W H lab_l lab_a lab_b fg bg fg_prob s d0 d1 d2 :
  (cols fg, rows fg) = (W, H) -> (cols bg, rows bg) = (W, H) ->
  in_int (W * H) = true ->
  KDE [lab_l; lab_a; lab_b; data fg; data bg] 0%nat 3%nat W H true = Ok d0 ->
  KDE [lab_l; lab_a; lab_b; data fg; data bg] 1%nat 3%nat W H true = Ok d1 ->
  KDE [lab_l; lab_a; lab_b; data fg; data bg] 2%nat 3%nat W H true = Ok d2 ->
  length d0 = 256%nat -> length d1 = 256%nat -> length d2 = 256%nat ->
  W * H <= Z.of_nat (length lab_l) -> W * H <= Z.of_nat (length lab_a) ->
  W * H <= Z.of_nat (length lab_b) ->
  W * H <= Z.of_nat (length fg_prob) ->
  exists pmap,
    main_from_loaded KDE W H lab_l lab_a lab_b fg bg fg_prob s =
      (Ok tt,
       St (Mem [lab_l; lab_a; lab_b; data fg; data bg] [pmap])
          (st_trace s ++
           [KdeCall 0%nat 3%nat W H true; KdeCall 1%nat 3%nat W H true;
            KdeCall 2%nat 3%nat W H true] ++
           (Store 0%nat <$> seqZ 0 (W * H)))) /\
    length pmap = length fg_prob /\
    forall i : nat, Z.of_nat i < W * H ->
      exists v0 v1 v2 p0 p1 p2,
        lab_l !! i = Some v0 /\ lab_a !! i = Some v1 /\ lab_b !! i = Some v2 /\
        d0 !! u8_index v0 = Some p0 /\ d1 !! u8_index v1 = Some p1 /\
        d2 !! u8_index v2 = Some p2 /\
        pmap !! i = Some (float_to_double (fmul (fmul p0 p1) p2)).
Proof.
  intros Hfg Hbg Hint K0 K1 K2 L0 L1 L2 B0 B1 B2 Hlen.
  rewrite (main_from_loaded_pass KDE _ _ _ _ _ _ _ _ _ Hfg Hbg).
  set (s0 := St _ _).
  destruct (ImageProbability_pixels KDE [0; 1; 2]%nat 3%nat W H 0%nat s0
              0%nat 1%nat 2%nat lab_l lab_a lab_b d0 d1 d2 fg_prob)
    as (s' & out' & Erun & Hout' & Hlen' & Hpix); try reflexivity; try assumption.
  destruct (ImageProbability_any_run KDE [0; 1; 2]%nat 3%nat W H 0%nat s0)
    as (cs & m & Hu8 & Hl64 & _ & Htr & _ & _ & Hsucc).
  cbn zeta in *. rewrite Erun in *. cbn [fst snd] in *.
  destruct (Hsucc I)
    as (c0 & c1 & c2 & _ & _ & _ & -> & [= <-] & [= <-] & [= <-] & _ & _ & _ & _ & Hm & _).
  exists out'. split; [|split; [exact Hlen'|exact Hpix]].
  f_equal. destruct s' as [[u8m m64] tr]. cbn in Hu8, Hl64, Htr, Hout'.
  subst u8m tr. f_equal; [f_equal|].
  - destruct m64 as [|x [|? ?]]; cbn in Hl64; try discriminate.
    cbn in Hout'. now injection Hout' as ->.
  - cbn [fmap list_fmap]. do 2 f_equal. rewrite Hm.
    destruct (Z.le_gt_cases (W * H) 0).
    + now rewrite !seqZ_nil by lia.
    + now rewrite Z.max_r by lia.
Qed.

Lemma mat_view_all W H blk :
  0 < W -> 0 < H -> Z.of_nat (length blk) = W * H -> mat_view W H blk = Ok blk.
Proof.
  intros HW HH Hlen. unfold mat_view.
  destruct (Z.ltb_spec 0 W); [|lia]. destruct (Z.ltb_spec 0 H); [|lia].
  destruct (Z.leb_spec (W * H) (Z.of_nat (length blk))); [|lia].
  cbn [andb]. f_equal. apply take_ge. lia.
Qed.

(** X14: [main] end to end.  For an image and two scribble masks of one
    size [W] x [H], three Lab planes and an output buffer of [W*H] entries,
    256-entry densities for the three planes against the foreground mask, and
    an Esc among the keys to come, [main] returns 0; the output buffer then
    holds at every pixel the product of the three density values found at the
    pixel's L, a and b intensities; one window, named fg_prob, has been
    opened and shows this buffer scaled between its smallest and its largest
    entry, which are logged; the keys up to the first Esc are consumed. *)
Theorem main_shows_the_probability_map
    W H lab_l lab_a lab_b fg bg fg_prob s (g : gui float D) d0 d1 d2 pre rest :
  (cols fg, rows fg) = (W, H) -> (cols bg, rows bg) = (W, H) ->
  0 < W -> 0 < H -> in_int (W * H) = true ->
  KDE [lab_l; lab_a; lab_b; data fg; data bg] 0%nat 3%nat W H true = Ok d0 ->
  KDE [lab_l; lab_a; lab_b; data fg; data bg] 1%nat 3%nat W H true = Ok d1 ->
  KDE [lab_l; lab_a; lab_b; data fg; data bg] 2%nat 3%nat W H true = Ok d2 ->
  length d0 = 256%nat -> length d1 = 256%nat -> length d2 = 256%nat ->
  Z.of_nat (length lab_l) = W * H -> Z.of_nat (length lab_a) = W * H ->
  Z.of_nat (length lab_b) = W * H ->
  Z.of_nat (length fg_prob) = W * H ->
  gui_keys g = pre ++ 27 :: rest -> 27 ∉ pre ->
  exists pmap lo hi,
    main_shown KDE D CV_WINDOW_NORMAL CV_WINDOW_KEEPRATIO CV_GUI_EXPANDED
      dless double_to_float jet_scaled W H lab_l lab_a lab_b fg bg fg_prob s g =
      (Returned 0,
       St (Mem [lab_l; lab_a; lab_b; data fg; data bg] [pmap])
          (st_trace s ++
           [KdeCall 0%nat 3%nat W H true; KdeCall 1%nat 3%nat W H true;
            KdeCall 2%nat 3%nat W H true] ++
           (Store 0%nat <$> seqZ 0 (W * H))),
       Gui (gui_events g ++
            [LogInfo (double_to_float lo) (double_to_float hi);
             NamedWindow "fg_prob"
               (Z.lor (Z.lor CV_WINDOW_NORMAL CV_WINDOW_KEEPRATIO) CV_GUI_EXPANDED);
             Imshow "fg_prob"
               (jet_scaled pmap (double_to_float lo) (double_to_float hi))])
           rest) /\
    Z.of_nat (length pmap) = W * H /\
    min_element double dless pmap = Some lo /\
    max_element double dless pmap = Some hi /\
    forall i : nat, Z.of_nat i < W * H ->
      exists v0 v1 v2 p0 p1 p2,
        lab_l !! i = Some v0 /\ lab_a !! i = Some v1 /\ lab_b !! i = Some v2 /\
        d0 !! u8_index v0 = Some p0 /\ d1 !! u8_index v1 = Some p1 /\
        d2 !! u8_index v2 = Some p2 /\
        pmap !! i = Some (float_to_double (fmul (fmul p0 p1) p2)).
Proof.
  intros Hfg Hbg HW HH Hint K0 K1 K2 L0 L1 L2 B0 B1 B2 Hlen Hkeys Hpre.
  destruct (main_from_loaded_run W H lab_l lab_a lab_b fg bg fg_prob s d0 d1 d2)
    as (pmap & Erun & Hlen' & Hpix); try assumption; try lia.
  assert (Hpos : 0 < W * H) by (now apply Z.mul_pos_pos).
  destruct pmap as [|x more] eqn:Epmap; [cbn in Hlen'; lia|]. rewrite <- Epmap in *.
  exists pmap.
  exists (foldl (fun m y => if dless y m then y else m) x more).
  exists (foldl (fun m y => if dless m y then y else m) x more).
  split; [|split; [lia|split; [now rewrite Epmap|split; [now rewrite Epmap|exact Hpix]]]].
  unfold main_shown. rewrite Erun. cbn [st_mem mem_f64 lookup list_lookup of_option].
  rewrite mat_view_all by lia.
  rewrite Epmap at 1. rewrite ImageSC_nonempty. cbn zeta. rewrite <- Epmap.
  unfold ShowImage. cbn zeta. cbn [gui_keys gui_events].
  rewrite Hkeys, (WaitForEsc_app _ _ Hpre). now rewrite <- app_assoc.
Qed.

(** X15: [main] returns only 0, and only after the display.  Whenever
    [main] returns, the returned value is 0, the two scribble masks had the
    size of the image, [W] and [H] are positive, the computation of the
    probability map had succeeded, the window fg_prob has been opened and
    shows the first [W*H] entries of the output buffer scaled between two of
    them, which are logged, nothing else has been logged or shown, and an Esc
    was among the keys: the keys up to the first one are consumed. *)
Theorem main_returns_only_after_esc
    W H lab_l lab_a lab_b fg bg fg_prob s (g : gui float D) z s' g' :
  main_shown KDE D CV_WINDOW_NORMAL CV_WINDOW_KEEPRATIO CV_GUI_EXPANDED
    dless double_to_float jet_scaled W H lab_l lab_a lab_b fg bg fg_prob s g =
    (Returned z, s', g') ->
  z = 0 /\
  (cols fg, rows fg) = (W, H) /\ (cols bg, rows bg) = (W, H) /\
  main_from_loaded KDE W H lab_l lab_a lab_b fg bg fg_prob s = (Ok tt, s') /\
  0 < W /\ 0 < H /\
  (exists pre, gui_keys g = pre ++ 27 :: gui_keys g' /\ 27 ∉ pre) /\
  exists blk lo hi,
    mem_f64 (st_mem s') !! 0%nat = Some blk /\
    W * H <= Z.of_nat (length blk) /\
    lo ∈ take (Z.to_nat (W * H)) blk /\ hi ∈ take (Z.to_nat (W * H)) blk /\
    gui_events g' =
      gui_events g ++
      [LogInfo (double_to_float lo) (double_to_float hi);
       NamedWindow "fg_prob"
         (Z.lor (Z.lor CV_WINDOW_NORMAL CV_WINDOW_KEEPRATIO) CV_GUI_EXPANDED);
       Imshow "fg_prob"
         (jet_scaled (take (Z.to_nat (W * H)) blk)
            (double_to_float lo) (double_to_float hi))].
Proof.
  unfold main_shown.
  destruct (main_from_loaded KDE W H lab_l lab_a lab_b fg bg fg_prob s)
    as [[[]|e] s1] eqn:Emain; [|discriminate].
  destruct (mem_f64 (st_mem s1) !! 0%nat) as [blk|] eqn:Eblk; [|discriminate].
  cbn [of_option].
  destruct (mat_view W H blk) as [pmap|e] eqn:Eview; [|discriminate].
  destruct (ImageSC _ _ _ _ _ _ _ _ _ pmap "fg_prob" true g) as [[[]| |e] g1] eqn:Eshow;
    try discriminate.
  intros [= <- <- <-]. split; [reflexivity|].
  assert (Hfg : (cols fg, rows fg) = (W, H)).
  { destruct (decide ((cols fg, rows fg) = (W, H))) as [|Hne]; [assumption|].
    rewrite (main_from_loaded_check KDE W H lab_l lab_a lab_b fg bg fg_prob s)
      in Emain by (now left).
    discriminate. }
  assert (Hbg : (cols bg, rows bg) = (W, H)).
  { destruct (decide ((cols bg, rows bg) = (W, H))) as [|Hne]; [assumption|].
    rewrite (main_from_loaded_check KDE W H lab_l lab_a lab_b fg bg fg_prob s)
      in Emain by (now right).
    discriminate. }
  repeat (split; [assumption || reflexivity|]).
  unfold mat_view in Eview.
  destruct (Z.ltb_spec 0 W) as [HW|]; [|discriminate].
  destruct (Z.ltb_spec 0 H) as [HH|]; [|discriminate].
  destruct (Z.leb_spec (W * H) (Z.of_nat (length blk))) as [Hlen|]; [|discriminate].
  cbn [andb] in Eview. injection Eview as <-.
  repeat (split; [assumption|]).
  assert (Hall : Z.of_nat (length (take (Z.to_nat (W * H)) blk)) = W * H).
  { rewrite length_take. lia. }
  destruct (take (Z.to_nat (W * H)) blk) as [|x more] eqn:Epmap.
  { cbn in Hall. assert (0 < W * H) by (now apply Z.mul_pos_pos). lia. }
  rewrite ImageSC_nonempty in Eshow. cbn zeta in Eshow.
  set (lo := foldl (fun m y => if dless y m then y else m) x more) in *.
  set (hi := foldl (fun m y => if dless m y then y else m) x more) in *.
  set (g0 := Gui _ _) in Eshow. set (img := jet_scaled _ _ _) in Eshow.
  pose proof (ShowImage_keys float D CV_WINDOW_NORMAL CV_WINDOW_KEEPRATIO
                CV_GUI_EXPANDED img "fg_prob" true g0) as Hk.
  pose proof (ShowImage_events float D CV_WINDOW_NORMAL CV_WINDOW_KEEPRATIO
                CV_GUI_EXPANDED img "fg_prob" true g0) as He.
  cbn zeta in Hk. rewrite Eshow in Hk, He. cbn [fst snd g0 gui_keys gui_events] in Hk, He.
  split.
  { apply WaitForEsc_Returned_inv. now rewrite <- Hk. }
  exists blk, lo, hi. rewrite Epmap. repeat (split; [assumption|]). split; [|split].
  - apply foldl_choice_elem. intros m y. destruct (dless y m); auto.
  - apply foldl_choice_elem. intros m y. destruct (dless m y); auto.
  - rewrite He. now rewrite <- app_assoc.
Qed.

End MainFacts.

(** ** What the result does not depend on *)

Section AgreeFacts.
Context {ops : FloatOps}.
Variable KDE :
  list (list byte) -> ptr -> ptr -> Z -> Z -> bool -> result (list float).

Lemma channel_prob_agree probs channels c i s t :
  agree_on channels s t ->
  exists r, channel_prob probs channels c i s = (r, s) /\
            channel_prob probs channels c i t = (r, t).
Proof.
  intros (_ & _ & Hu8).
  unfold channel_prob, bind, index, lift, load8, read_u8.
  destruct (probs !! c) as [d|]; cbn; [|eauto].
  destruct (channels !! c) as [ch|] eqn:Ech; cbn; [|eauto].
  rewrite <- (Hu8 ch) by (now apply list_elem_of_lookup_2 with c).
  destruct (i <? 0); cbn; [eauto|].
  destruct (mem_u8 (st_mem s) !! ch) as [blk|]; cbn; [|eauto].
  destruct (blk !! Z.to_nat i) as [v|]; cbn; eauto.
Qed.

Lemma store64_agree ps p i v s t :
  agree_on ps s t ->
  (store64 p i v s).1 = (store64 p i v t).1 /\
  agree_on ps (store64 p i v s).2 (store64 p i v t).2.
Proof.
  intros (Hf & Htr & Hu8). unfold store64. rewrite <- Hf.
  destruct (write_f64 (mem_f64 (st_mem s)) p i v) as [m'|e]; cbn [fst snd].
  - split; [reflexivity|]. repeat split; cbn; [now rewrite Htr|exact Hu8].
  - split; [reflexivity|]. repeat split; assumption.
Qed.

Lemma pixel_body_agree probs channels outimg i s t :
  agree_on channels s t ->
  (pixel_body probs channels outimg i s).1 = (pixel_body probs channels outimg i t).1 /\
  agree_on channels (pixel_body probs channels outimg i s).2
                    (pixel_body probs channels outimg i t).2.
Proof.
  intros HR. unfold pixel_body.
  destruct (channel_prob_agree probs channels 0 i s t HR) as ([p0|e] & Es & Et).
  2:{ rewrite (bind_Err _ _ _ _ _ Es), (bind_Err _ _ _ _ _ Et). auto. }
  rewrite (bind_Ok _ _ _ _ _ Es), (bind_Ok _ _ _ _ _ Et). clear Es Et.
  destruct (channel_prob_agree probs channels 1 i s t HR) as ([p1|e] & Es & Et).
  2:{ rewrite (bind_Err _ _ _ _ _ Es), (bind_Err _ _ _ _ _ Et). auto. }
  rewrite (bind_Ok _ _ _ _ _ Es), (bind_Ok _ _ _ _ _ Et). clear Es Et.
  destruct (channel_prob_agree probs channels 2 i s t HR) as ([p2|e] & Es & Et).
  2:{ rewrite (bind_Err _ _ _ _ _ Es), (bind_Err _ _ _ _ _ Et). auto. }
  rewrite (bind_Ok _ _ _ _ _ Es), (bind_Ok _ _ _ _ _ Et).
  now apply store64_agree.
Qed.

Lemma pixel_loop_agree probs channels outimg count :
  forall start s t,
    agree_on channels s t ->
    (for_range start count (pixel_body probs channels outimg) s).1 =
      (for_range start count (pixel_body probs channels outimg) t).1 /\
    agree_on channels
      (for_range start count (pixel_body probs channels outimg) s).2
      (for_range start count (pixel_body probs channels outimg) t).2.
Proof.
  induction count as [|count IH]; intros start s t HR; cbn [for_range].
  - auto.
  - destruct (pixel_body_agree probs channels outimg start s t HR) as [Hr HR'].
    unfold bind.
    destruct (pixel_body probs channels outimg start s) as [[[]|e] s1];
      destruct (pixel_body probs channels outimg start t) as [[[]|e'] t1];
      cbn [fst snd] in *; try discriminate.
    + now apply IH.
    + auto.
Qed.

Lemma kde_loop_agree channels mask W H idx :
  forall s t,
    agree_on channels s t ->
    (forall c, c ∈ channels ->
       KDE (mem_u8 (st_mem s)) c mask W H true =
       KDE (mem_u8 (st_mem t)) c mask W H true) ->
    (for_each (fun i => ch <- index channels i ;; call_kde KDE ch mask W H true)
              idx s).1 =
      (for_each (fun i => ch <- index channels i ;; call_kde KDE ch mask W H true)
                idx t).1 /\
    agree_on channels
      (for_each (fun i => ch <- index channels i ;; call_kde KDE ch mask W H true)
                idx s).2
      (for_each (fun i => ch <- index channels i ;; call_kde KDE ch mask W H true)
                idx t).2.
Proof.
  induction idx as [|i idx IH]; intros s t HR HK; cbn [for_each]; [auto|].
  destruct (channels !! i) as [c|] eqn:Ec.
  2:{ assert (Hs : forall u : state,
                (ch <- index channels i ;; call_kde KDE ch mask W H true) u =
                (Err OutOfBounds, u)).
      { intros u. unfold bind, index, lift. now rewrite Ec. }
      rewrite (bind_Err _ _ _ _ _ (Hs s)), (bind_Err _ _ _ _ _ (Hs t)). auto. }
  assert (Hcall : forall u : state,
            (ch <- index channels i ;; call_kde KDE ch mask W H true) u =
            (KDE (mem_u8 (st_mem u)) c mask W H true,
             St (st_mem u) (st_trace u ++ [KdeCall c mask W H true]))).
  { intros u. now rewrite (bind_Ok _ _ _ _ _ (index_Ok _ _ _ _ Ec)), call_kde_run. }
  pose proof (Hcall s) as Hs. pose proof (Hcall t) as Ht.
  rewrite <- (HK c) in Ht by (now apply list_elem_of_lookup_2 with i).
  assert (HR' : agree_on channels
                  (St (st_mem s) (st_trace s ++ [KdeCall c mask W H true]))
                  (St (st_mem t) (st_trace t ++ [KdeCall c mask W H true]))).
  { destruct HR as (Hf & Htr & Hu8). repeat split; cbn; [assumption|now rewrite Htr|assumption]. }
  destruct (KDE (mem_u8 (st_mem s)) c mask W H true) as [d|e].
  2:{ rewrite (bind_Err _ _ _ _ _ Hs), (bind_Err _ _ _ _ _ Ht). auto. }
  rewrite (bind_Ok _ _ _ _ _ Hs), (bind_Ok _ _ _ _ _ Ht).
  destruct (IH _ _ HR' HK) as [Hr HR'']. unfold bind, ret.
  destruct (for_each _ idx (St (st_mem s) _)) as [[ds|e] s2];
    destruct (for_each _ idx (St (st_mem t) _)) as [[ds'|e'] t2];
    cbn [fst snd] in *; try discriminate; [|auto].
  injection Hr as <-. auto.
Qed.

(** Two runs of [ImageProbability] that see the same channel buffers, the
    same densities and the same [double] arrays end alike. *)
Lemma ImageProbability_agree channels mask W H outimg s t :
  agree_on channels s t ->
  (forall c, c ∈ channels ->
     KDE (mem_u8 (st_mem s)) c mask W H true =
     KDE (mem_u8 (st_mem t)) c mask W H true) ->
  (ImageProbability KDE channels mask W H outimg s).1 =
    (ImageProbability KDE channels mask W H outimg t).1 /\
  agree_on channels (ImageProbability KDE channels mask W H outimg s).2
                    (ImageProbability KDE channels mask W H outimg t).2.
Proof.
  intros HR HK. unfold ImageProbability.
  destruct (kde_loop_agree channels mask W H [0; 1; 2]%nat s t HR HK) as [Hr HR'].
  destruct (for_each (fun i => ch <- index channels i ;; call_kde KDE ch mask W H true)
                     [0; 1; 2]%nat s) as [[probs|e] s1] eqn:Es;
    destruct (for_each (fun i => ch <- index channels i ;; call_kde KDE ch mask W H true)
                       [0; 1; 2]%nat t) as [[probs'|e'] t1] eqn:Et;
    cbn [fst snd] in Hr, HR'; try discriminate; injection Hr as <-.
  - rewrite (bind_Ok _ _ _ _ _ Es), (bind_Ok _ _ _ _ _ Et). unfold int_mul.
    destruct (in_int (W * H)).
    + rewrite (bind_Ok _ _ s1 (W * H) s1), (bind_Ok _ _ t1 (W * H) t1) by reflexivity.
      now apply pixel_loop_agree.
    + rewrite (bind_Err _ _ s1 SignedOverflow s1), (bind_Err _ _ t1 SignedOverflow t1)
        by reflexivity.
      auto.
  - rewrite (bind_Err _ _ _ _ _ Es), (bind_Err _ _ _ _ _ Et). auto.
Qed.

End AgreeFacts.

Section BackgroundFacts.
Context {ops : FloatOps}.
Variable KDE :
  list (list byte) -> ptr -> ptr -> Z -> Z -> bool -> result (list float).
Variable D : Type.
Variables CV_WINDOW_NORMAL CV_WINDOW_KEEPRATIO CV_GUI_EXPANDED : Z.
Variable dless : double -> double -> bool.
Variable double_to_float : double -> float.
Variable jet_scaled : list double -> float -> float -> D.

(** The estimator reads memory through its two pointers only. *)
Hypothesis KDE_local :
  forall mem mem' channel mask W H flag,
    mem !! channel = mem' !! channel -> mem !! mask = mem' !! mask ->
    KDE mem channel mask W H flag = KDE mem' channel mask W H flag.

Lemma main_from_loaded_background W H lab_l lab_a lab_b fg bg bg' fg_prob s :
  cols bg' = cols bg -> rows bg' = rows bg ->
  (main_from_loaded KDE W H lab_l lab_a lab_b fg bg fg_prob s).1 =
    (main_from_loaded KDE W H lab_l lab_a lab_b fg bg' fg_prob s).1 /\
  mem_f64 (st_mem (main_from_loaded KDE W H lab_l lab_a lab_b fg bg fg_prob s).2) =
    mem_f64 (st_mem (main_from_loaded KDE W H lab_l lab_a lab_b fg bg' fg_prob s).2) /\
  st_trace (main_from_loaded KDE W H lab_l lab_a lab_b fg bg fg_prob s).2 =
    st_trace (main_from_loaded KDE W H lab_l lab_a lab_b fg bg' fg_prob s).2.
Proof.
  intros Hc Hr.
  destruct (decide ((cols fg, rows fg) = (W, H))) as [Hfg|Hfg].
  2:{ rewrite !(main_from_loaded_check KDE W H lab_l lab_a lab_b fg _ fg_prob s)
        by (now left).
      auto. }
  destruct (decide ((cols bg, rows bg) = (W, H))) as [Hbg|Hbg].
  2:{ rewrite !(main_from_loaded_check KDE W H lab_l lab_a lab_b fg _ fg_prob s)
        by (right; congruence).
      auto. }
  rewrite (main_from_loaded_pass KDE _ _ _ _ _ _ _ _ _ Hfg Hbg).
  rewrite (main_from_loaded_pass KDE W H lab_l lab_a lab_b fg bg' fg_prob s Hfg)
    by congruence.
  set (s0 := St (Mem [lab_l; lab_a; lab_b; data fg; data bg] _) _).
  set (s0' := St (Mem [lab_l; lab_a; lab_b; data fg; data bg'] _) _).
  assert (HR : agree_on [0; 1; 2]%nat s0 s0').
  { repeat split. intros p Hp. apply list_elem_of_In in Hp. cbn in Hp.
    destruct Hp as [<-|[<-|[<-|[]]]]; reflexivity. }
  destruct (ImageProbability_agree KDE [0; 1; 2]%nat 3%nat W H 0%nat s0 s0' HR)
    as (Hres & Hf & Htr & _).
  { intros c Hc'. apply KDE_local; [|reflexivity].
    apply list_elem_of_In in Hc'. cbn in Hc'.
    destruct Hc' as [<-|[<-|[<-|[]]]]; reflexivity. }
  auto.
Qed.

(** X16: the pixels of the background scribbles play no part.  With an
    estimator that reads memory through its two pointer arguments only, two
    runs of [main] that differ only in the pixel values of the background
    scribble image (of the same size) end in the same way, with the same
    output buffer, the same estimator calls and stores, and the same log and
    windows: the background mask is checked for its size and then not used. *)
Theorem main_ignores_background_pixels
    W H lab_l lab_a lab_b fg bg bg' fg_prob s (g : gui float D) :
  cols bg' = cols bg -> rows bg' = rows bg ->
  let run := main_shown KDE D CV_WINDOW_NORMAL CV_WINDOW_KEEPRATIO CV_GUI_EXPANDED
               dless double_to_float jet_scaled W H lab_l lab_a lab_b fg bg
               fg_prob s g in
  let run' := main_shown KDE D CV_WINDOW_NORMAL CV_WINDOW_KEEPRATIO CV_GUI_EXPANDED
                dless double_to_float jet_scaled W H lab_l lab_a lab_b fg bg'
                fg_prob s g in
  run.1.1 = run'.1.1 /\ run.2 = run'.2 /\
  mem_f64 (st_mem run.1.2) = mem_f64 (st_mem run'.1.2) /\
  st_trace run.1.2 = st_trace run'.1.2.
Proof.
  intros Hc Hr. cbn zeta. unfold main_shown.
  destruct (main_from_loaded_background W H lab_l lab_a lab_b fg bg bg' fg_prob s Hc Hr)
    as (Hres & Hf & Htr).
  destruct (main_from_loaded KDE W H lab_l lab_a lab_b fg bg fg_prob s)
    as [[[]|e] s1];
    destruct (main_from_loaded KDE W H lab_l lab_a lab_b fg bg' fg_prob s)
      as [[[]|e'] s1'];
    cbn [fst snd] in Hres, Hf, Htr; try discriminate.
  - rewrite <- Hf.
    destruct (of_option OutOfBounds (mem_f64 (st_mem s1) !! 0%nat)) as [blk|e];
      [|now cbn].
    destruct (mat_view W H blk) as [pmap|e]; [|now cbn].
    destruct (ImageSC _ _ _ _ _ _ _ _ _ pmap "fg_prob" true g) as [[[]| |e] g1];
      now cbn.
  - injection Hres as <-. now cbn.
Qed.

End BackgroundFacts.

(** *** On example inputs *)

Lemma main_shows_the_probability_map_witness :
  exists pmap lo hi,
    main_shown (ops := exact_ops) ex_kde (list Qc) 0 0 0 Qc_ltb (fun x => x) ex_jet
      2 2 ex_l ex_a ex_b ex_fg ex_bg ex_fg_prob ex_state ex_gui =
      (Returned 0,
       St (ops := exact_ops)
          (Mem (ops := exact_ops) [ex_l; ex_a; ex_b; data ex_fg; data ex_bg] [pmap])
          (st_trace ex_state ++
           [KdeCall 0%nat 3%nat 2 2 true; KdeCall 1%nat 3%nat 2 2 true;
            KdeCall 2%nat 3%nat 2 2 true] ++
           (Store 0%nat <$> seqZ 0 (2 * 2))),
       Gui (gui_events ex_gui ++
            [LogInfo lo hi;
             NamedWindow "fg_prob" (Z.lor (Z.lor 0 0) 0);
             Imshow "fg_prob" (ex_jet pmap lo hi)])
           [32]) /\
    Z.of_nat (length pmap) = 2 * 2 /\
    min_element Qc Qc_ltb pmap = Some lo /\
    max_element Qc Qc_ltb pmap = Some hi /\
    forall i : nat, Z.of_nat i < 2 * 2 ->
      exists v0 v1 v2 p0 p1 p2,
        ex_l !! i = Some v0 /\ ex_a !! i = Some v1 /\ ex_b !! i = Some v2 /\
        ex_density 0 !! u8_index v0 = Some p0 /\
        ex_density 1 !! u8_index v1 = Some p1 /\
        ex_density 2 !! u8_index v2 = Some p2 /\
        pmap !! i = Some ((p0 * p1) * p2)%Qc.
Proof.
  apply (main_shows_the_probability_map (ops := exact_ops) ex_kde (list Qc) 0 0 0
           Qc_ltb (fun x => x) ex_jet 2 2 ex_l ex_a ex_b ex_fg ex_bg ex_fg_prob
           ex_state ex_gui (ex_density 0) (ex_density 1) (ex_density 2) [13] [32]);
    try reflexivity; try (vm_compute; reflexivity).
  intros Hin. apply list_elem_of_singleton in Hin. discriminate.
Defined.

Lemma main_returns_only_after_esc_witness :
  let run := main_shown (ops := exact_ops) ex_kde (list Qc) 0 0 0 Qc_ltb (fun x => x)
               ex_jet 2 2 ex_l ex_a ex_b ex_fg ex_bg ex_fg_prob ex_state ex_gui in
  0 = 0 /\
  (cols ex_fg, rows ex_fg) = (2, 2) /\ (cols ex_bg, rows ex_bg) = (2, 2) /\
  main_from_loaded (ops := exact_ops) ex_kde 2 2 ex_l ex_a ex_b ex_fg ex_bg
    ex_fg_prob ex_state = (Ok tt, run.1.2) /\
  0 < 2 /\ 0 < 2 /\
  (exists pre, gui_keys ex_gui = pre ++ 27 :: gui_keys run.2 /\ 27 ∉ pre) /\
  exists blk lo hi,
    mem_f64 (st_mem run.1.2) !! 0%nat = Some blk /\
    2 * 2 <= Z.of_nat (length blk) /\
    lo ∈ take (Z.to_nat (2 * 2)) blk /\ hi ∈ take (Z.to_nat (2 * 2)) blk /\
    gui_events run.2 =
      gui_events ex_gui ++
      [LogInfo lo hi;
       NamedWindow "fg_prob" (Z.lor (Z.lor 0 0) 0);
       Imshow "fg_prob" (ex_jet (take (Z.to_nat (2 * 2)) blk) lo hi)].
Proof.
  cbn zeta.
  apply (main_returns_only_after_esc (ops := exact_ops) ex_kde (list Qc) 0 0 0
           Qc_ltb (fun x => x) ex_jet 2 2 ex_l ex_a ex_b ex_fg ex_bg ex_fg_prob
           ex_state ex_gui 0).
  vm_compute. reflexivity.
Defined.

Lemma main_ignores_background_pixels_witness :
  let run := main_shown (ops := exact_ops) ex_kde (list Qc) 0 0 0 Qc_ltb (fun x => x)
               ex_jet 2 2 ex_l ex_a ex_b ex_fg ex_bg ex_fg_prob ex_state ex_gui in
  let run' := main_shown (ops := exact_ops) ex_kde (list Qc) 0 0 0 Qc_ltb (fun x => x)
                ex_jet 2 2 ex_l ex_a ex_b ex_fg ex_bg' ex_fg_prob ex_state ex_gui in
  run.1.1 = run'.1.1 /\ run.2 = run'.2 /\
  mem_f64 (st_mem run.1.2) = mem_f64 (st_mem run'.1.2) /\
  st_trace run.1.2 = st_trace run'.1.2.
Proof.
  apply (main_ignores_background_pixels (ops := exact_ops) ex_kde (list Qc) 0 0 0
           Qc_ltb (fun x => x) ex_jet).
  - intros mem mem' channel mask W H flag Hc Hm.
    unfold ex_kde, estimate_at, deref. now rewrite Hc, Hm.
  - reflexivity.
  - reflexivity.
Defined.
